(** * Verification model of apps/trim-tag-convert-video-audio.py

    A shallow embedding of the batch script: manifest loading and merging,
    construction of the work items, track numbering, the confirmation gate,
    the per-item [pipeline], the sequential and thread-pool batch runners,
    and the process exit code computed by [main].

    External effects (subprocesses, tagging, thumbnails, gif) are oracles;
    the helpers imported from the project library ([Video], [os.path]
    functions, [find_common_directory]) are fields of a record [Lib] that
    every theorem quantifies over. *)

From Stdlib Require Import ZArith Ascii String.
From stdpp Require Import base gmap strings list fin_maps.

Open Scope Z_scope.

(* ------------------------------------------------------------------ *)
(** ** Python values, exceptions and results *)

(** YAML scalars as loaded by [yaml.safe_load]. *)
Inductive Value :=
| VStr (s : string)
| VInt (z : Z)
| VBool (b : bool)
| VNull.

(** Python exceptions that can cross the functions of the script. *)
Inductive exn :=
| KeyError (key : string)
| NameError (var : string)          (* UnboundLocalError is a NameError *)
| RuntimeError (msg : string)
| EOFError
| KeyboardInterrupt
| OtherExn (msg : string).

(** [isinstance(e, Exception)]: [KeyboardInterrupt] derives from
    [BaseException] only, so [except Exception] lets it through. *)
Definition is_exception (e : exn) : bool :=
  match e with
  | KeyboardInterrupt => false
  | _ => true
  end.

(** The outcome of a Python call: a returned value or a raised exception. *)
Inductive PyRes (A : Type) :=
| PRet (a : A)
| PRaise (e : exn).
Arguments PRet {A} a.
Arguments PRaise {A} e.

(** A Python dict with string keys. *)
Abbreviation dict := (gmap string Value).

(** [d.update(other)]: every key of [other] is written into [d]. *)
Definition dict_update (d other : dict) : dict :=
  map_fold (fun k v acc => <[k:=v]> acc) d other.

(* ------------------------------------------------------------------ *)
(** ** The work item ([library.media.Video]) *)

Record Video := mkVideo {
  filepath : string;
  output_dirpath : string;
  video_filename : string;
  audio_filename : string;
  start : option string;
  stop : option string;
  artist : string;
  track_num : option Z;
}.

(** [video.track_num = n] *)
Definition set_track_num (v : Video) (n : option Z) : Video :=
  {| filepath := filepath v; output_dirpath := output_dirpath v;
     video_filename := video_filename v; audio_filename := audio_filename v;
     start := start v; stop := stop v; artist := artist v; track_num := n |}.

(** Python truthiness of an optional string attribute. *)
Definition truthy (o : option string) : bool :=
  match o with
  | Some s => negb (String.eqb s "")
  | None => false
  end.

(** The project library the script imports, left abstract: construction
    of a [Video] ([PRaise] when the constructor raises),
    [Video.verbose], [Video.problems], the [os.path] helpers, and the
    attribute reads and formatting that build the text outputs. *)
Record Lib := {
  make_video : dict -> PyRes Video;                 (* Video( **defaults) *)
  from_other : Video -> dict -> PyRes Video;        (* Video.from_other *)
  verbose_exn : Video -> option exn;                (* lines 187-188 raising *)
  video_problems : Video -> PyRes (list string);    (* video.problems() *)
  abspath : string -> string;
  basename : string -> string;
  dirname : string -> string;
  path_join : string -> string -> string;
  strip_ext : string -> string;                     (* os.path.splitext(_)[0] *)
  find_common_directory : list string -> string;
  socials_exn : Video -> option exn;                (* lines 265-276 raising *)
  youtube_exn : Video -> option exn;                (* lines 288-311 raising *)
}.

(* ------------------------------------------------------------------ *)
(** ** Manifests *)

(** A manifest file as loaded by [yaml.safe_load]: its [defaults] and
    [performances] keys, [None] when the key is absent. *)
Record RawManifest := {
  raw_path : string;
  raw_defaults : option dict;
  raw_performances : option (list dict);
}.

Record Manifest := {
  defaults : dict;
  performances : list dict;
}.

Section Script.
Context (L : Lib).

(** Lines 148-156: [man['defaults'][...] = ...] for the four manifest keys;
    [man['defaults']] raises [KeyError] when the key is absent. *)
Definition load_manifest (m : RawManifest) : PyRes RawManifest :=
  let p := abspath L (raw_path m) in
  match raw_defaults m with
  | None => PRaise (KeyError "defaults")
  | Some d =>
      let d1 := <["manifest_filepath":=VStr p]> d in
      let d2 := <["manifest_basename":=VStr (basename L p)]> d1 in
      let d3 := <["manifest_dirpath":=VStr (dirname L p)]> d2 in
      let d4 := <["manifest_filename":=VStr (strip_ext L (basename L p))]> d3 in
      PRet {| raw_path := raw_path m; raw_defaults := Some d4;
              raw_performances := raw_performances m |}
  end.

Fixpoint load_manifests (ms : list RawManifest) : PyRes (list RawManifest) :=
  match ms with
  | [] => PRet []
  | m :: rest =>
      match load_manifest m with
      | PRaise e => PRaise e
      | PRet m' =>
          match load_manifests rest with
          | PRaise e => PRaise e
          | PRet rest' => PRet (m' :: rest')
          end
      end
  end.

End Script.

(** Lines 159-164: the combined manifest.  [man.get('defaults', {})] and
    [man.get('performances', [])] default absent keys. *)
Definition absorb (acc : Manifest) (man : RawManifest) : Manifest :=
  let man_defaults := default ∅ (raw_defaults man) in
  let man_performances := default [] (raw_performances man) in
  {| defaults := dict_update (defaults acc) man_defaults;
     performances := performances acc ++ man_performances |}.

Definition merge_manifests (mans : list RawManifest) : Manifest :=
  fold_left absorb mans {| defaults := ∅; performances := [] |}.

(* ------------------------------------------------------------------ *)
(** ** The per-item pipeline (lines 50-133) *)

(** [MODES] (line 47). *)
Definition MODES : list string :=
  ["trim"; "mp3"; "tag"; "thumb"; "gif"; "market"; "yt"].

(** [m in modes] *)
Definition mem (m : string) (modes : list string) : bool :=
  existsb (String.eqb m) modes.

(** [modes = modes or MODES]: an empty list (or [None]) selects all modes. *)
Definition effective_modes (modes : list string) : list string :=
  match modes with
  | [] => MODES
  | _ => modes
  end.

(** What the external tools do for one item: the exit codes of the trim
    and mp3 subprocesses ([run_subprocess]), whether [tag_mp3] raises, the
    thumbnails [generate_thumbnails] returns and whether [generate_gif]
    passes. *)
Record Oracle := {
  o_trim : Z;
  o_mp3 : Z;
  o_tag : option exn;
  o_thumbs : list string;
  o_gif : bool;
}.

(** The observable actions of one pipeline run, in order. *)
Inductive stage :=
| CopySource (src dst : string)        (* shutil.copy2 when nothing to trim *)
| RunTrim (src dst : string)           (* ffmpeg trim subprocess *)
| RunMp3 (src dst : string)            (* ffmpeg mp3 subprocess *)
| Tag (audio : string) (track : option Z)
| Thumbnails (src dir : string)
| CopyThumb (src dir : string)
| Gif (thumbs : list string) (dst : string).

(** The local variables of [pipeline]; [None] is a name still unbound. *)
Record Locals := mkLocals {
  exit_code : Z;
  video_filepath : option string;
  audio_filepath : option string;
  thumbnail_filepaths : option (list string);
}.

(** Either fall through to the next statement or leave the function. *)
Inductive Flow :=
| Next (l : Locals)
| Done (r : PyRes Z).

Definition with_exit_code (l : Locals) (z : Z) : Locals :=
  mkLocals z (video_filepath l) (audio_filepath l) (thumbnail_filepaths l).
Definition with_video_filepath (l : Locals) (p : string) : Locals :=
  mkLocals (exit_code l) (Some p) (audio_filepath l) (thumbnail_filepaths l).
Definition with_audio_filepath (l : Locals) (p : string) : Locals :=
  mkLocals (exit_code l) (video_filepath l) (Some p) (thumbnail_filepaths l).
Definition with_thumbnails (l : Locals) (ps : list string) : Locals :=
  mkLocals (exit_code l) (video_filepath l) (audio_filepath l) (Some ps).

(** Run the next block after [f] unless [f] left the function. *)
Definition then_stage (f : Flow * list stage) (k : Locals -> Flow * list stage)
  : Flow * list stage :=
  match f with
  | (Next l, tr) => let '(f', tr') := k l in (f', tr ++ tr')
  | (Done r, tr) => (Done r, tr)
  end.

Section Pipeline.
Context (L : Lib) (o : Oracle) (video : Video).

(** Lines 57-73. *)
Definition trim_block (l : Locals) : Flow * list stage :=
  let vf := abspath L (path_join L (output_dirpath video) (video_filename video)) in
  if negb (truthy (start video) || truthy (stop video)) then
    (Next (with_video_filepath l vf), [CopySource (filepath video) vf])
  else
    let l' := with_exit_code (with_video_filepath l vf) (o_trim o) in
    ((if Z.eqb (o_trim o) 0 then Next l' else Done (PRet (o_trim o))),
     [RunTrim (filepath video) vf]).

(** Lines 85-94: [audio_filepath] is bound before [mp3_args] reads
    [video_filepath]. *)
Definition mp3_block (l : Locals) : Flow * list stage :=
  let af := abspath L (path_join L (output_dirpath video) (audio_filename video)) in
  match video_filepath l with
  | None => (Done (PRaise (NameError "video_filepath")), [])
  | Some vf =>
      let l' := with_exit_code (with_audio_filepath l af) (o_mp3 o) in
      ((if Z.eqb (o_mp3 o) 0 then Next l' else Done (PRet (o_mp3 o))),
       [RunMp3 vf af])
  end.

(** Lines 96-110. *)
Definition tag_block (l : Locals) : Flow * list stage :=
  match audio_filepath l with
  | None => (Done (PRaise (NameError "audio_filepath")), [])
  | Some af =>
      ((match o_tag o with Some e => Done (PRaise e) | None => Next l end),
       [Tag af (track_num video)])
  end.

(** Lines 112-119: the first three thumbnails are copied next to the video. *)
Definition thumb_block (l : Locals) : Flow * list stage :=
  let thumbnail_dirpath := path_join L (output_dirpath video) "thumbnails" in
  match video_filepath l with
  | None => (Done (PRaise (NameError "video_filepath")), [])
  | Some vf =>
      (Next (with_thumbnails l (o_thumbs o)),
       Thumbnails vf thumbnail_dirpath
         :: map (fun t => CopyThumb t (output_dirpath video)) (firstn 3 (o_thumbs o)))
  end.

(** Lines 121-130: a failed gif sets [exit_code = 1] and falls through. *)
Definition gif_block (l : Locals) : Flow * list stage :=
  let gif_filepath :=
    path_join L (output_dirpath video) (video_filename video ++ ".gif") in
  match thumbnail_filepaths l with
  | None => (Done (PRaise (NameError "thumbnail_filepaths")), [])
  | Some ts =>
      ((if o_gif o then Next l else Next (with_exit_code l 1)),
       [Gif ts gif_filepath])
  end.

(** [if m in modes: block] *)
Definition when_mode (m : string) (modes : list string)
  (block : Locals -> Flow * list stage) (l : Locals) : Flow * list stage :=
  if mem m modes then block l else (Next l, []).

(** [pipeline(video, modes)]: the item's result and its actions. *)
Definition pipeline (modes0 : list string) : PyRes Z * list stage :=
  let modes := effective_modes modes0 in
  let l0 := mkLocals 0 None None None in
  let run :=
    then_stage (when_mode "trim" modes trim_block l0) (fun l1 =>
    then_stage (when_mode "mp3" modes mp3_block l1) (fun l2 =>
    then_stage (when_mode "tag" modes tag_block l2) (fun l3 =>
    then_stage (when_mode "thumb" modes thumb_block l3) (fun l4 =>
    when_mode "gif" modes gif_block l4)))) in
  match run with
  | (Next l, tr) => (PRet (exit_code l), tr)
  | (Done r, tr) => (r, tr)
  end.

End Pipeline.

(* ------------------------------------------------------------------ *)
(** ** Work items, problems and the confirmation gate (lines 166-215) *)

(** The entries of [problems], kept structured rather than formatted. *)
Inductive Problem :=
| PerfIdx (p : nat) (e : exn)            (* performance idx {p} is no good *)
| VideoIdx (v : nat) (e : exn)           (* video idx {v} is no good *)
| VideoProblem (msg path : string).      (* {problem} in "{video.filepath}" *)

(** The operator's reply to [input(...)]. *)
Inductive Answer :=
| Typed (s : string)
| CtrlC                                   (* KeyboardInterrupt in input *)
| EndOfInput.                             (* EOFError in input *)

Section Construct.
Context (L : Lib).

(** Lines 170-176: one [Video.from_other] per performance, in order; an
    [Exception] becomes a problem and the loop goes on, a
    [KeyboardInterrupt] leaves the function. *)
Fixpoint construct (dv : Video) (p : nat) (perfs : list dict)
  : PyRes (list Video * list Problem) :=
  match perfs with
  | [] => PRet ([], [])
  | perf :: rest =>
      match from_other L dv perf with
      | PRet v =>
          match construct dv (S p) rest with
          | PRet (vs, ps) => PRet (v :: vs, ps)
          | PRaise e' => PRaise e'
          end
      | PRaise e =>
          if is_exception e then
            match construct dv (S p) rest with
            | PRet (vs, ps) => PRet (vs, PerfIdx p e :: ps)
            | PRaise e' => PRaise e'
            end
          else PRaise e
      end
  end.

(** Lines 185-190, with the same [except Exception]. *)
Fixpoint verbose_problems (v : nat) (videos : list Video) : PyRes (list Problem) :=
  match videos with
  | [] => PRet []
  | video :: rest =>
      match verbose_exn L video with
      | Some e =>
          if is_exception e then
            match verbose_problems (S v) rest with
            | PRet ps => PRet (VideoIdx v e :: ps)
            | PRaise e' => PRaise e'
            end
          else PRaise e
      | None => verbose_problems (S v) rest
      end
  end.

(** Lines 193-195: [video.problems()] is not guarded. *)
Fixpoint tag_problems (videos : list Video) : PyRes (list Problem) :=
  match videos with
  | [] => PRet []
  | video :: rest =>
      match video_problems L video with
      | PRaise e => PRaise e
      | PRet prs =>
          match tag_problems rest with
          | PRet ps => PRet (map (fun pr => VideoProblem pr (filepath video)) prs ++ ps)
          | PRaise e => PRaise e
          end
      end
  end.

End Construct.

(** Lines 178-181: [video.track_num = v + 1] for every unset track. *)
Fixpoint number_tracks (v : nat) (videos : list Video) : list Video :=
  match videos with
  | [] => []
  | video :: rest =>
      match track_num video with
      | Some _ => video
      | None => set_track_num video (Some (Z.of_nat v + 1))
      end :: number_tracks (S v) rest
  end.

(** The reply [input()] returns is a Python [str]; its characters are
    taken in U+0000..U+00FF, one [ascii] each (its code point).
    [str.strip()] removes the characters [str.isspace] accepts, which in
    that range are U+0009..U+000D, U+001C..U+001F, U+0020, U+0085 and
    U+00A0. *)
Definition is_space (c : ascii) : bool :=
  match nat_of_ascii c with
  | 9 | 10 | 11 | 12 | 13 | 28 | 29 | 30 | 31 | 32 | 133 | 160 => true
  | _ => false
  end%nat.

Fixpoint lstrip (s : string) : string :=
  match s with
  | EmptyString => EmptyString
  | String c rest => if is_space c then lstrip rest else s
  end.

Fixpoint rstrip (s : string) : string :=
  match s with
  | EmptyString => EmptyString
  | String c rest =>
      let r := rstrip rest in
      if is_space c && String.eqb r "" then EmptyString else String c r
  end.

Definition strip (s : string) : string := rstrip (lstrip s).

(** [str.lower()] on U+0000..U+00FF: [A]..[Z] and U+00C0..U+00DE except
    U+00D7 map to the code point 32 above; every other character is its
    own lower case (U+00DF and U+00B5 included). *)
Definition lower_char (c : ascii) : ascii :=
  let n := nat_of_ascii c in
  if ((65 <=? n) && (n <=? 90))%nat
     || ((192 <=? n) && (n <=? 222) && negb (n =? 215))%nat
  then ascii_of_nat (n + 32) else c.

Fixpoint lower (s : string) : string :=
  match s with
  | EmptyString => EmptyString
  | String c rest => String (lower_char c) (lower rest)
  end.

(** [s.startswith('y')] *)
Definition starts_with_y (s : string) : bool :=
  match s with
  | String c _ => Ascii.eqb c "y"%char
  | EmptyString => false
  end.

(** Lines 197-215: [None] lets the batch run; [Some r] leaves the function
    with [r] before any item is processed. *)
Definition gate (confirm : bool) (problems : list Problem) (ans : Answer)
  : option (PyRes (option Z)) :=
  if negb (bool_decide (problems = [])) && confirm then
    Some (PRaise (RuntimeError "problems were detected! you dont want to confirm this!"))
  else if confirm then None
  else
    match ans with
    | CtrlC => Some (PRet (Some 2))
    | EndOfInput => Some (PRaise EOFError)
    | Typed s =>
        if starts_with_y (lower (strip s)) then None else Some (PRet (Some 2))
    end.

(* ------------------------------------------------------------------ *)
(** ** The batch runners and the text outputs (lines 217-315) *)

(** Batch-level actions: a pipeline invoked for item [i], one of its
    actions, and after the batch the marketing directory created and the
    text files opened for writing (created or truncated). *)
Inductive bevent :=
| Call (i : nat)
| Item (i : nat) (s : stage)
| Makedirs (dir : string)
| WriteMarketing (path : string)
| WriteYoutube (path : string).

(** The call [pipeline(videos[i])] as it appears in the batch trace. *)
Definition item_run (L : Lib) (oracle : nat -> Oracle) (modes : list string)
  (i : nat) (v : Video) : PyRes Z * list bevent :=
  let '(r, tr) := pipeline L (oracle i) v modes in
  (r, Call i :: map (Item i) tr).

Section Runners.
Context (L : Lib) (oracle : nat -> Oracle) (modes : list string).

(** Lines 219-225: in list order; the first non-zero exit code is kept and
    ends the loop; an exception leaves the function.  [return_code] starts
    as [None]. *)
Fixpoint run_sequential (i : nat) (videos : list Video)
  : PyRes (option Z) * list bevent :=
  match videos with
  | [] => (PRet None, [])
  | v :: rest =>
      let '(r, tr) := item_run L oracle modes i v in
      match r with
      | PRaise e => (PRaise e, tr)
      | PRet z =>
          if Z.eqb z 0 then
            let '(r', tr') := run_sequential (S i) rest in (r', tr ++ tr')
          else (PRet (Some z), tr)
      end
  end.

(** Lines 233-247: the [as_completed] loop over the results in completion
    order [order] (indices into [videos]).  Every result is assigned to
    [return_code]; an exception sets it to 1 and breaks. *)
Fixpoint as_completed_loop (videos : list Video) (order : list nat)
  (return_code : option Z) : option Z :=
  match order with
  | [] => return_code
  | i :: rest =>
      match nth_error videos i with
      | None => as_completed_loop videos rest return_code
      | Some v =>
          match fst (item_run L oracle modes i v) with
          | PRet z => as_completed_loop videos rest (Some z)
          | PRaise _ => Some 1
          end
      end
  end.

(** Lines 227-247: every item is submitted to the pool, and leaving the
    [with] block waits for all of them, so every pipeline runs whatever
    the loop does.  The trace lists the items in completion order, each
    one's actions together: one of the possible interleavings. *)
Definition run_parallel (videos : list Video) (order : list nat)
  : PyRes (option Z) * list bevent :=
  (PRet (as_completed_loop videos order None),
   flat_map (fun i =>
     match nth_error videos i with
     | Some v => snd (item_run L oracle modes i v)
     | None => []
     end) order).

End Runners.

(* ------------------------------------------------------------------ *)
(** ** [trim_tag_convert_marketing_yt] and [main] *)

(** The command-line arguments. *)
Record Args := {
  yamls : list RawManifest;
  confirm : bool;
  sequential : bool;
  marketing_filepath : option string;
  cwd : string;
  arg_modes : list string;
}.

(** What the outside world does during one run: the operator's answer,
    the tools' behaviour per item, the completion order of the pool, and
    the file system seen by the text outputs. *)
Record World := {
  answer : Answer;
  oracle : nat -> Oracle;
  order : list nat;
  isdir : string -> bool;                           (* os.path.isdir *)
  makedirs_exn : string -> option exn;              (* os.makedirs raising *)
  open_exn : string -> option exn;                  (* open(path, 'w') raising *)
  write_exn : string -> option exn;                 (* w.write(...) raising *)
}.

(** The first element of [l] for which [f] raises, with its exception. *)
Fixpoint first_exn {A} (f : A -> option exn) (l : list A) : option exn :=
  match l with
  | [] => None
  | x :: rest => match f x with Some e => Some e | None => first_exn f rest end
  end.

(** Lines 258-279, once [marketing_filepath] is known: the directory is
    created when [os.path.isdir] says it is missing
    ([os.path.isdir('')] is false and [os.makedirs('')] raises
    [FileNotFoundError]), the socials lines are built item by item, then
    the file is opened and written. *)
Definition write_marketing (L : Lib) (w : World) (videos : list Video)
  (mf : string) : PyRes unit * list bevent :=
  let dn := dirname L mf in
  let made :=
    if String.eqb dn "" then
      (PRaise (OtherExn "FileNotFoundError: [Errno 2] No such file or directory: ''"), [])
    else if isdir w dn then (PRet tt, [])
    else match makedirs_exn w dn with
         | Some e => (PRaise e, [])
         | None => (PRet tt, [Makedirs dn])
         end in
  match made with
  | (PRaise e, tr) => (PRaise e, tr)
  | (PRet _, tr) =>
      match first_exn (socials_exn L) videos with
      | Some e => (PRaise e, tr)
      | None =>
          match open_exn w mf with
          | Some e => (PRaise e, tr)
          | None =>
              match write_exn w mf with
              | Some e => (PRaise e, tr ++ [WriteMarketing mf])
              | None => (PRet tt, tr ++ [WriteMarketing mf])
              end
          end
      end
  end.

(** Lines 283-311: per item, [youtube.txt] is opened (created or
    truncated), its text is built, then written. *)
Fixpoint write_youtube (L : Lib) (w : World) (videos : list Video)
  : PyRes unit * list bevent :=
  match videos with
  | [] => (PRet tt, [])
  | v :: rest =>
      let yf := path_join L (output_dirpath v) "youtube.txt" in
      match open_exn w yf with
      | Some e => (PRaise e, [])
      | None =>
          match youtube_exn L v with
          | Some e => (PRaise e, [WriteYoutube yf])
          | None =>
              match write_exn w yf with
              | Some e => (PRaise e, [WriteYoutube yf])
              | None =>
                  let '(r, tr) := write_youtube L w rest in (r, WriteYoutube yf :: tr)
              end
          end
      end
  end.

(** Lines 249-315: [if return_code != 0: return return_code], then the
    marketing text and one youtube text per item; the function then falls
    off its end and returns [None]. *)
Definition finish (L : Lib) (w : World) (modes : list string) (videos : list Video)
  (marketing_filepath : option string) (cwd : string) (return_code : option Z)
  : PyRes (option Z) * list bevent :=
  if negb (bool_decide (return_code = Some 0)) then (PRet return_code, [])
  else
    let market :=
      if mem "market" modes then
        let mf :=
          match marketing_filepath with
          | Some p => p
          | None =>
              let cd := find_common_directory L (map output_dirpath videos) in
              let cd := if String.eqb cd "" then cwd else cd in
              abspath L (path_join L cd "marketing.txt")
          end in
        write_marketing L w videos mf
      else (PRet tt, []) in
    match market with
    | (PRaise e, tr) => (PRaise e, tr)
    | (PRet _, tr) =>
        let '(r, tr') := if mem "yt" modes then write_youtube L w videos else (PRet tt, []) in
        match r with
        | PRaise e => (PRaise e, tr ++ tr')
        | PRet _ => (PRet None, tr ++ tr')
        end
    end.


(** Lines 145-195: the work items and the problems found. *)
Definition prepare (L : Lib) (yms : list RawManifest)
  : PyRes (list Video * list Problem) :=
  match load_manifests L yms with
  | PRaise e => PRaise e
  | PRet mans =>
      let manifest := merge_manifests mans in
      match make_video L (defaults manifest) with
      | PRaise e => PRaise e
      | PRet default_video =>
          match construct L default_video 0 (performances manifest) with
          | PRaise e => PRaise e
          | PRet (videos0, ps) =>
              let videos := number_tracks 0 videos0 in
              match verbose_problems L 0 videos with
              | PRaise e => PRaise e
              | PRet ps2 =>
                  match tag_problems L videos with
                  | PRaise e => PRaise e
                  | PRet ps3 => PRet (videos, ps ++ ps2 ++ ps3)
                  end
              end
          end
      end
  end.

Definition trim_tag_convert_marketing_yt (L : Lib) (a : Args) (w : World)
  : PyRes (option Z) * list bevent :=
  let modes := effective_modes (arg_modes a) in
  match prepare L (yamls a) with
  | PRaise e => (PRaise e, [])
  | PRet (videos, problems) =>
      match gate (confirm a) problems (answer w) with
      | Some r => (r, [])
      | None =>
          let '(r, tr) :=
            if sequential a then run_sequential L (oracle w) modes 0 videos
            else run_parallel L (oracle w) modes videos (order w) in
          match r with
          | PRaise e => (PRaise e, tr)
          | PRet rc =>
              let '(r', tr') := finish L w modes videos (marketing_filepath a) (cwd a) rc in
              (r', tr ++ tr')
          end
      end
  end.

(** [sys.exit(return_code)] in [main]: [None] exits 0, an int exits with
    its low byte; [KeyboardInterrupt] is caught and exits 2; any other
    exception escapes and the interpreter exits 1. *)
Definition exit_status (r : PyRes (option Z)) : Z :=
  match r with
  | PRet None => 0
  | PRet (Some z) => Z.land z 255
  | PRaise KeyboardInterrupt => 2
  | PRaise _ => 1
  end.

Definition main (L : Lib) (a : Args) (w : World) : Z :=
  exit_status (fst (trim_tag_convert_marketing_yt L a w)).

(* ------------------------------------------------------------------ *)
(** ** A concrete library and concrete tool behaviours *)

Definition demo_default_video : Video :=
  mkVideo "in.mp4" "out" "v.mp4" "a.mp3" None None "band" None.

(** [Video.from_other]: a performance with key [bad] raises; [out] sets the
    output directory, [start] the trim start, [track_num] the track. *)
Definition demo_from_other (dv : Video) (perf : dict) : PyRes Video :=
  match perf !! "bad" with
  | Some _ => PRaise (OtherExn "bad performance")
  | None =>
      let out := match perf !! "out" with Some (VStr s) => s | _ => output_dirpath dv end in
      let st := match perf !! "start" with Some (VStr s) => Some s | _ => start dv end in
      let tn := match perf !! "track_num" with Some (VInt z) => Some z | _ => track_num dv end in
      PRet (mkVideo (filepath dv) out (video_filename dv) (audio_filename dv)
              st (stop dv) (artist dv) tn)
  end.

(** The text before the last [/] ([os.path.dirname] on plain paths). *)
Fixpoint before_last_slash (p : string) : option string :=
  match p with
  | EmptyString => None
  | String c rest =>
      match before_last_slash rest with
      | Some d => Some (String c d)
      | None => if Ascii.eqb c "/"%char then Some EmptyString else None
      end
  end.

Definition demo_dirname (p : string) : string :=
  match before_last_slash p with
  | None => ""
  | Some EmptyString => "/"
  | Some d => d
  end.

Definition demo_lib : Lib := {|
  make_video := fun _ => PRet demo_default_video;
  from_other := demo_from_other;
  verbose_exn := fun _ => None;
  video_problems := fun _ => PRet [];
  abspath := fun p => p;
  basename := fun p => p;
  dirname := demo_dirname;
  path_join := fun a b => (a ++ "/" ++ b)%string;
  strip_ext := fun p => p;
  find_common_directory := fun _ => "";
  socials_exn := fun _ => None;
  youtube_exn := fun _ => None;
|}.

(** Every tool succeeds. *)
Definition ok_oracle : Oracle :=
  {| o_trim := 0; o_mp3 := 0; o_tag := None; o_thumbs := ["t1"; "t2"]; o_gif := true |}.

(** The trim subprocess exits with [z]. *)
Definition trim_fails (z : Z) : Oracle :=
  {| o_trim := z; o_mp3 := 0; o_tag := None; o_thumbs := ["t1"; "t2"]; o_gif := true |}.

(** A trimmed item writing to directory [d] with track number [n]. *)
Definition trimmed_video (d : string) (n : Z) : Video :=
  mkVideo "in.mp4" d "v.mp4" "a.mp3" (Some "00:01") None "band" (Some n).

Definition perf_out (d : string) : dict := {[ "out" := VStr d ]}.
Definition perf_trimmed (d : string) : dict :=
  <["start":=VStr "00:01"]> {[ "out" := VStr d ]}.
Definition perf_bad : dict := {[ "bad" := VNull ]}.

Definition demo_manifest (perfs : list dict) : RawManifest :=
  {| raw_path := "perfs.yaml"; raw_defaults := Some ∅; raw_performances := Some perfs |}.

Definition demo_args (conf seq : bool) (perfs : list dict) : Args :=
  {| yamls := [demo_manifest perfs]; confirm := conf; sequential := seq;
     marketing_filepath := None; cwd := "/home"; arg_modes := MODES |}.

(** Item 0 is trimmed and its trim exits [z0]; item 1 is trimmed and its
    trim exits [z1]; the pool completes item 0 first. *)
(** A world whose directories all exist and whose files can all be written. *)
Definition mk_world (ans : Answer) (orc : nat -> Oracle) (ord : list nat) : World :=
  {| answer := ans; oracle := orc; order := ord;
     isdir := fun _ => true; makedirs_exn := fun _ => None;
     open_exn := fun _ => None; write_exn := fun _ => None |}.

Definition demo_world (z0 z1 : Z) : World :=
  mk_world (Typed " Yes ")
    (fun i => match i with 0%nat => trim_fails z0 | _ => trim_fails z1 end)
    [0; 1]%nat.

(* ------------------------------------------------------------------ *)
(** ** Helper lemmas *)

(** [d.update(other)] is the left-biased union [other ∪ d]. *)
Lemma dict_update_union (d other : dict) : dict_update d other = other ∪ d.
Proof.
  unfold dict_update. revert d.
  induction other as [|k v m Hk IH] using map_ind; intros d.
  - rewrite map_fold_empty. by rewrite (left_id_L ∅ (∪)).
  - rewrite map_fold_insert_L; [| | done].
    + by rewrite IH, insert_union_l.
    + intros j1 j2 z1 z2 y Hne _ _. by apply insert_insert_ne.
Qed.

(** The spec's reading of a dictionary union in which later dicts win:
    the binding of [k] in the last dict that has one. *)
Fixpoint last_binding (k : string) (ds : list dict) : option Value :=
  match ds with
  | [] => None
  | d :: rest =>
      match last_binding k rest with
      | Some v => Some v
      | None => d !! k
      end
  end.

Lemma merge_fold_defaults (mans : list RawManifest) (acc : Manifest) (k : string) :
  defaults (fold_left absorb mans acc) !! k =
  match last_binding k (map (fun man => default ∅ (raw_defaults man)) mans) with
  | Some v => Some v
  | None => defaults acc !! k
  end.
Proof.
  revert acc. induction mans as [|man rest IH]; intros acc; simpl; [done|].
  rewrite IH. simpl. rewrite dict_update_union, lookup_union.
  destruct (last_binding k _); [done|].
  destruct (default ∅ (raw_defaults man) !! k), (defaults acc !! k); done.
Qed.

Lemma merge_fold_performances (mans : list RawManifest) (acc : Manifest) :
  performances (fold_left absorb mans acc) =
  (performances acc ++ concat (map (fun man => default [] (raw_performances man)) mans))%list.
Proof.
  revert acc. induction mans as [|man rest IH]; intros acc; simpl.
  - by rewrite app_nil_r.
  - rewrite IH. simpl. by rewrite app_assoc.
Qed.

Lemma number_tracks_lookup (n : nat) (vs : list Video) (i : nat) :
  number_tracks n vs !! i =
  (fun video => match track_num video with
                | Some _ => video
                | None => set_track_num video (Some (Z.of_nat (n + i) + 1))
                end) <$> vs !! i.
Proof.
  revert n i. induction vs as [|v rest IH]; intros n i; [done|].
  destruct i as [|i]; simpl.
  - by rewrite Nat.add_0_r.
  - rewrite IH. by replace (S n + i)%nat with (n + S i)%nat by lia.
Qed.

Lemma length_number_tracks (n : nat) (vs : list Video) :
  length (number_tracks n vs) = length vs.
Proof. revert n. induction vs; intros n; simpl; auto. Qed.

(** The outcome of [Video.from_other] for one performance. *)
Definition built (L : Lib) (dv : Video) (perf : dict) : option Video :=
  match from_other L dv perf with
  | PRet v => Some v
  | PRaise _ => None
  end.

(** A completed construction loop: the successful constructions in order,
    each failed performance recorded at its index, and one problem per
    failed performance. *)
Lemma construct_ok (L : Lib) (dv : Video) (p : nat) (perfs : list dict)
  (vs : list Video) (ps : list Problem) :
  construct L dv p perfs = PRet (vs, ps) ->
  vs = omap (built L dv) perfs ∧
  (∀ i perf e, perfs !! i = Some perf -> from_other L dv perf = PRaise e ->
     In (PerfIdx (p + i) e) ps) ∧
  length ps = length (filter (fun perf => built L dv perf = None) perfs).
Proof.
  revert p vs ps. induction perfs as [|perf rest IH]; intros p vs ps H.
  - simpl in H. injection H as <- <-. split; [done|]. split; [|done].
    intros i perf e Hi. done.
  - simpl in H. rewrite filter_cons.
    destruct (from_other L dv perf) as [v|e] eqn:Hf.
    + assert (Hb : built L dv perf = Some v) by (unfold built; by rewrite Hf).
      destruct (construct L dv (S p) rest) as [[vs' ps']|e'] eqn:Hc; [|discriminate].
      injection H as <- <-. destruct (IH (S p) vs' ps' Hc) as (Hvs & Hin & Hlen).
      rewrite decide_False by congruence. simpl. rewrite Hb.
      split; [by rewrite Hvs|]. split; [|done].
      intros [|i] perf' e Hi He; simpl in Hi.
      * injection Hi as <-. congruence.
      * replace (p + S i)%nat with (S p + i)%nat by lia. eauto.
    + assert (Hb : built L dv perf = None) by (unfold built; by rewrite Hf).
      destruct (is_exception e); [|discriminate].
      destruct (construct L dv (S p) rest) as [[vs' ps']|e'] eqn:Hc; [|discriminate].
      injection H as <- <-. destruct (IH (S p) vs' ps' Hc) as (Hvs & Hin & Hlen).
      rewrite decide_True by done. simpl. rewrite Hb. split; [done|]. split; [|simpl; by rewrite Hlen].
      intros [|i] perf' e' Hi He; simpl in Hi.
      * injection Hi as <-. rewrite Hf in He. injection He as <-.
        rewrite Nat.add_0_r. by left.
      * right. replace (p + S i)%nat with (S p + i)%nat by lia. eauto.
Qed.

(** Without a [KeyboardInterrupt] the construction loop completes. *)
Lemma construct_total (L : Lib) (dv : Video) (p : nat) (perfs : list dict) :
  (∀ perf e, In perf perfs -> from_other L dv perf = PRaise e -> is_exception e = true) ->
  ∃ vs ps, construct L dv p perfs = PRet (vs, ps).
Proof.
  revert p. induction perfs as [|perf rest IH]; intros p Hall; simpl; [eauto|].
  destruct (IH (S p)) as (vs & ps & ->); [intros; eapply Hall; [right|]; eauto|].
  destruct (from_other L dv perf) as [v|e] eqn:Hf; [eauto|].
  rewrite (Hall perf e (or_introl eq_refl) Hf). eauto.
Qed.

Lemma omap_total {A B} (f : A -> option B) (l : list A) :
  Forall (fun x => f x ≠ None) l ->
  length (omap f l) = length l ∧
  ∀ i x, l !! i = Some x -> omap f l !! i = f x.
Proof.
  induction 1 as [|x l Hx Hl [IHlen IHlook]]; [done|].
  simpl. destruct (f x) as [y|] eqn:Hfx; [|done]. simpl. split; [f_equal; exact IHlen|].
  intros [|i] z Hz; simpl in Hz.
  - by injection Hz as <-.
  - by apply IHlook.
Qed.

Lemma then_stage_prefix (f : Flow) (tr : list stage) (k : Locals -> Flow * list stage) :
  ∃ rest, snd (then_stage (f, tr) k) = tr ++ rest.
Proof.
  destruct f as [l|r]; simpl.
  - destruct (k l) as [f' tr']. by exists tr'.
  - exists []. by rewrite app_nil_r.
Qed.

(** Split a membership in a concrete trace into its cases. *)
Ltac trace_cases :=
  simpl in *;
  repeat match goal with
         | H : _ ∨ _ |- _ => destruct H
         | H : In _ (_ ++ _) |- _ => apply in_app_or in H
         | H : In _ (_ :: _) |- _ => simpl in H
         | H : In _ (map _ _) |- _ => apply in_map_iff in H as (? & ? & ?)
         end.

(** Unfold one pipeline run into all its paths. *)
Ltac pipeline_paths o modes :=
  unfold pipeline, when_mode, trim_block, mp3_block, tag_block, thumb_block,
    gif_block in *;
  let ms := fresh "ms" in
  set (ms := effective_modes modes) in *; clearbody ms;
  destruct (mem "trim" ms), (mem "mp3" ms), (mem "tag" ms), (mem "thumb" ms),
    (mem "gif" ms); simpl in *;
  repeat match goal with
         | |- context [if ?b then _ else _] => destruct b eqn:?; simpl in *
         | H : context [if ?b then _ else _] |- _ => destruct b eqn:?; simpl in *
         | |- context [match o_tag o with _ => _ end] => destruct (o_tag o); simpl in *
         | H : context [match o_tag o with _ => _ end] |- _ => destruct (o_tag o); simpl in *
         end;
  trace_cases.



Lemma in_item_run_trace (L : Lib) (oracle : nat -> Oracle) (modes : list string)
  (i : nat) (v : Video) : Call i ∈ snd (item_run L oracle modes i v).
Proof.
  unfold item_run. destruct (pipeline L (oracle i) v modes). simpl. left.
Qed.

Lemma fst_item_run (L : Lib) (oracle : nat -> Oracle) (modes : list string) i v :
  fst (item_run L oracle modes i v) = fst (pipeline L (oracle i) v modes).
Proof. unfold item_run. by destruct (pipeline L (oracle i) v modes). Qed.



(** The sequential loop always calls its first item. *)
Lemma run_sequential_first_call (L : Lib) (oracle : nat -> Oracle) (modes : list string)
  (n : nat) (v : Video) (rest : list Video) :
  In (Call n) (snd (run_sequential L oracle modes n (v :: rest))).
Proof.
  simpl. pose proof (in_item_run_trace L oracle modes n v) as Hc.
  apply list_elem_of_In in Hc.
  destruct (item_run L oracle modes n v) as [r tr]. simpl in Hc.
  destruct r as [z|e]; [|exact Hc].
  destruct (Z.eqb z 0); [|exact Hc].
  destruct (run_sequential L oracle modes (S n) rest) as [r' tr'].
  apply in_or_app. by left.
Qed.

Lemma first_exn_none {A} (f : A -> option exn) (l : list A) :
  (∀ x, f x = None) -> first_exn f l = None.
Proof. intros Hf. induction l as [|x rest IH]; simpl; [done|]. by rewrite Hf. Qed.

(** The text outputs when every directory exists or can be made and every
    file can be opened and written. *)
Lemma write_marketing_ok (L : Lib) (w : World) (videos : list Video) (mf : string) :
  dirname L mf ≠ "" ->
  isdir w (dirname L mf) = true ∨ makedirs_exn w (dirname L mf) = None ->
  (∀ v, socials_exn L v = None) -> open_exn w mf = None -> write_exn w mf = None ->
  fst (write_marketing L w videos mf) = PRet tt ∧
  (isdir w (dirname L mf) = true -> snd (write_marketing L w videos mf) = [WriteMarketing mf]).
Proof.
  intros Hdn Hdir Hs Ho Hw. unfold write_marketing.
  rewrite (proj2 (String.eqb_neq _ _) Hdn), first_exn_none by done.
  rewrite Ho, Hw.
  destruct (isdir w (dirname L mf)) eqn:Hi; [done|].
  destruct Hdir as [Hdir|Hdir]; [discriminate|]. rewrite Hdir. simpl.
  split; [done|discriminate].
Qed.

Lemma write_youtube_ok (L : Lib) (w : World) (videos : list Video) :
  (∀ p, open_exn w p = None) -> (∀ p, write_exn w p = None) ->
  (∀ v, youtube_exn L v = None) ->
  write_youtube L w videos =
    (PRet tt, map (fun v => WriteYoutube (path_join L (output_dirpath v) "youtube.txt")) videos).
Proof.
  intros Ho Hw Hy. induction videos as [|v rest IH]; [done|].
  simpl. rewrite Ho, Hy, Hw, IH. done.
Qed.


(** The texts are written from the file system's answers only: the reply
    read at the prompt plays no part in [finish]. *)
Lemma write_youtube_fs (L : Lib) (w w' : World) (videos : list Video) :
  open_exn w = open_exn w' -> write_exn w = write_exn w' ->
  write_youtube L w videos = write_youtube L w' videos.
Proof.
  intros Ho Hw. induction videos as [|v rest IH]; [done|].
  simpl. rewrite Ho, Hw, IH. reflexivity.
Qed.

Lemma finish_fs (L : Lib) (w w' : World) (modes : list string) (videos : list Video)
  (mf : option string) (cwd : string) (rc : option Z) :
  isdir w = isdir w' -> makedirs_exn w = makedirs_exn w' ->
  open_exn w = open_exn w' -> write_exn w = write_exn w' ->
  finish L w modes videos mf cwd rc = finish L w' modes videos mf cwd rc.
Proof.
  intros Hi Hm Ho Hw. unfold finish, write_marketing.
  rewrite Hi, Hm, Ho, Hw, (write_youtube_fs L w w' videos Ho Hw). reflexivity.
Qed.

(* ------------------------------------------------------------------ *)
(** ** Claims *)

(** C1. When every performance of a list of N builds a [Video] from the
    defaults, the work list has exactly N items, no problem is recorded,
    and item [i] (counting from 0) keeps its own track number or, when it
    has none, gets track number [i + 1]. *)
Theorem track_numbers_assigned (L : Lib) (dv : Video) (perfs : list dict) :
  Forall (fun perf => built L dv perf ≠ None) perfs ->
  ∃ vs, construct L dv 0 perfs = PRet (vs, []) ∧
  let videos := number_tracks 0 vs in
  length videos = length perfs ∧
  ∀ i perf v, perfs !! i = Some perf -> from_other L dv perf = PRet v ->
    videos !! i = Some (match track_num v with
                        | Some _ => v
                        | None => set_track_num v (Some (Z.of_nat i + 1))
                        end).
Proof.
  intros Hall.
  destruct (construct_total L dv 0 perfs) as (vs & ps & Hc).
  { intros perf e Hin He. rewrite List.Forall_forall in Hall.
    destruct (Hall perf Hin). unfold built. by rewrite He. }
  destruct (construct_ok L dv 0 perfs vs ps Hc) as (-> & _ & Hps).
  destruct (omap_total (built L dv) perfs Hall) as [Hlen Hlook].
  exists (omap (built L dv) perfs). split.
  { rewrite Hc. do 2 f_equal. apply length_zero_iff_nil. rewrite Hps.
    clear Hc Hps Hlen Hlook. induction Hall as [|perf rest Hp _ IH]; [done|].
    rewrite filter_cons. case_decide; naive_solver. }
  split.
  - by rewrite length_number_tracks.
  - intros i perf v Hi Hv. rewrite number_tracks_lookup, (Hlook i perf Hi).
    unfold built. by rewrite Hv.
Qed.

Lemma track_numbers_assigned_witness :
  Forall (fun perf => built demo_lib demo_default_video perf ≠ None)
    [perf_out "a"; perf_out "b"] ∧
  ∃ vs, construct demo_lib demo_default_video 0 [perf_out "a"; perf_out "b"] = PRet (vs, []) ∧
    length (number_tracks 0 vs) = 2%nat.
Proof.
  assert (H : Forall (fun perf => built demo_lib demo_default_video perf ≠ None)
                [perf_out "a"; perf_out "b"])
    by (repeat constructor; vm_compute; discriminate).
  split; [exact H|].
  destruct (track_numbers_assigned demo_lib demo_default_video _ H) as (vs & Hc & Hlen & _).
  exists vs. split; [exact Hc|exact Hlen].
Defined.

(** C9. Merging manifests in argument order: a key of the merged defaults
    is bound as in the last manifest whose defaults bind it (dictionary
    union, later manifests win), and the merged performances are the
    concatenation of the manifests' performance lists in order. *)
Theorem merge_union_concat (mans : list RawManifest) :
  (∀ k, defaults (merge_manifests mans) !! k =
        last_binding k (map (fun man => default ∅ (raw_defaults man)) mans)) ∧
  performances (merge_manifests mans) =
    concat (map (fun man => default [] (raw_performances man)) mans).
Proof.
  unfold merge_manifests. split.
  - intros k. rewrite merge_fold_defaults. simpl.
    rewrite lookup_empty. by destruct (last_binding k _).
  - by rewrite merge_fold_performances.
Qed.

Lemma effective_modes_mem (m : string) (modes : list string) :
  mem m modes = true -> effective_modes modes = modes.
Proof. by destruct modes. Qed.

(** The trim block lets the item go on: nothing to trim, or exit code 0. *)
Definition trim_passes (o : Oracle) (v : Video) : bool :=
  negb (truthy (start v) || truthy (stop v)) || Z.eqb (o_trim o) 0.

(** C10. The mode subsets are not independent: [mp3] without [trim] always
    raises the unbound [video_filepath]; [tag] without [mp3] raises the
    unbound [audio_filepath] whenever the trim block (if selected) lets
    the item go on; [gif] without [thumb] (and no earlier block selected)
    raises the unbound [thumbnail_filepaths]. *)
Theorem mode_subsets_unbound (L : Lib) :
  (∀ o v modes, mem "mp3" modes = true -> mem "trim" modes = false ->
     fst (pipeline L o v modes) = PRaise (NameError "video_filepath")) ∧
  (∀ o v modes, mem "tag" modes = true -> mem "mp3" modes = false ->
     (mem "trim" modes = false ∨ trim_passes o v = true) ->
     fst (pipeline L o v modes) = PRaise (NameError "audio_filepath")) ∧
  (∀ o v modes, mem "gif" modes = true -> mem "thumb" modes = false ->
     mem "trim" modes = false -> mem "mp3" modes = false -> mem "tag" modes = false ->
     fst (pipeline L o v modes) = PRaise (NameError "thumbnail_filepaths")).
Proof.
  split; [|split].
  - intros o v modes Hmp3 Htrim. unfold pipeline.
    rewrite (effective_modes_mem _ _ Hmp3). unfold when_mode.
    by rewrite Htrim, Hmp3.
  - intros o v modes Htag Hmp3 Htrim. unfold pipeline.
    rewrite (effective_modes_mem _ _ Htag). unfold when_mode.
    rewrite Hmp3, Htag. destruct (mem "trim" modes) eqn:Ht.
    + destruct Htrim as [Htrim|Hpass]; [congruence|].
      unfold trim_passes in Hpass. unfold trim_block.
      destruct (negb _) eqn:Hb; simpl; [done|].
      simpl in Hpass. rewrite Hpass. done.
    + done.
  - intros o v modes Hgif Hthumb Htrim Hmp3 Htag. unfold pipeline.
    rewrite (effective_modes_mem _ _ Hgif). unfold when_mode.
    by rewrite Htrim, Hmp3, Htag, Hthumb, Hgif.
Qed.

Lemma mode_subsets_unbound_witness :
  fst (pipeline demo_lib ok_oracle demo_default_video ["mp3"])
    = PRaise (NameError "video_filepath") ∧
  fst (pipeline demo_lib ok_oracle demo_default_video ["trim"; "tag"])
    = PRaise (NameError "audio_filepath") ∧
  fst (pipeline demo_lib ok_oracle demo_default_video ["gif"])
    = PRaise (NameError "thumbnail_filepaths").
Proof.
  destruct (mode_subsets_unbound demo_lib) as [H1 [H2 H3]].
  split; [|split].
  - apply H1; reflexivity.
  - apply H2; [reflexivity | reflexivity | right; reflexivity].
  - apply H3; reflexivity.
Defined.


(** In the thread pool every item is run, whatever the others return. *)
Lemma run_parallel_runs_all (L : Lib) (oracle : nat -> Oracle) (modes : list string)
  (videos : list Video) (order : list nat) :
  Permutation order (seq 0 (length videos)) ->
  ∀ i, (i < length videos)%nat -> In (Call i) (snd (run_parallel L oracle modes videos order)).
Proof.
  intros Hperm i Hi. unfold run_parallel. simpl. apply in_flat_map.
  exists i. split.
  - apply (Permutation_in _ (Permutation_sym Hperm)). apply in_seq. lia.
  - destruct (nth_error videos i) as [v|] eqn:Hv.
    + unfold item_run. destruct (pipeline L (oracle i) v modes). left. done.
    + apply nth_error_None in Hv. lia.
Qed.




Lemma flat_map_seq_S {B} (f : nat -> list B) (k m : nat) :
  flat_map f (seq (S k) m) = flat_map (fun i => f (S i)) (seq k m).
Proof.
  revert k. induction m as [|m IH]; intros k; [done|].
  simpl. f_equal. apply IH.
Qed.

(** The sequential loop from item [n] on: it runs a prefix of the items,
    every one of them but the last returning 0, and stops early only after
    an item that did not return 0. *)
Lemma run_sequential_prefix (L : Lib) (oracle : nat -> Oracle) (modes : list string)
  (videos : list Video) (n : nat) :
  ∃ m, (m <= length videos)%nat ∧
    snd (run_sequential L oracle modes n videos) =
      flat_map (fun i => match nth_error videos i with
                         | Some v => snd (item_run L oracle modes (n + i) v)
                         | None => []
                         end) (seq 0 m) ∧
    (∀ i v, (S i < m)%nat -> nth_error videos i = Some v ->
       fst (item_run L oracle modes (n + i) v) = PRet 0) ∧
    ((m < length videos)%nat -> ∃ i v, m = S i ∧ nth_error videos i = Some v ∧
       fst (item_run L oracle modes (n + i) v) ≠ PRet 0).
Proof.
  revert n. induction videos as [|v rest IH]; intros n.
  - exists 0%nat. simpl. split; [lia|]. split; [done|]. split; [intros; lia|].
    intros; lia.
  - simpl. destruct (item_run L oracle modes n v) as [r tr] eqn:Hrun.
    assert (Hstop : (∃ m, (m <= S (length rest))%nat ∧
              tr = flat_map (fun i => match nth_error (v :: rest) i with
                                      | Some v0 => snd (item_run L oracle modes (n + i) v0)
                                      | None => [] end) (seq 0 m) ∧
              (∀ i v0, (S i < m)%nat -> nth_error (v :: rest) i = Some v0 ->
                 fst (item_run L oracle modes (n + i) v0) = PRet 0) ∧
              ((m < S (length rest))%nat -> ∃ i v0, m = S i ∧
                 nth_error (v :: rest) i = Some v0 ∧
                 fst (item_run L oracle modes (n + i) v0) ≠ PRet 0))
              ∨ r = PRet 0).
    { destruct r as [z|e]; [destruct (Z.eqb_spec z 0) as [->|Hz]; [by right|]|];
        left; exists 1%nat; (split; [lia|]); simpl; rewrite Nat.add_0_r, Hrun;
        (split; [by rewrite app_nil_r|]); (split; [intros; lia|]);
        intros _; exists 0%nat, v; rewrite Nat.add_0_r, Hrun; naive_solver. }
    destruct r as [z|e].
    + destruct (Z.eqb_spec z 0) as [->|Hz].
      * destruct (IH (S n)) as (m & Hm & Htr & Hok & Hfail).
        destruct (run_sequential L oracle modes (S n) rest) as [r' tr'].
        exists (S m). simpl in *. split; [lia|]. split.
        { rewrite Nat.add_0_r, Hrun, flat_map_seq_S, Htr. simpl. f_equal.
          apply flat_map_ext. intros i. by rewrite Nat.add_succ_r. }
        split.
        { intros [|i] v0 Hi Hv0; simpl in Hv0.
          - injection Hv0 as <-. rewrite Nat.add_0_r, Hrun. done.
          - rewrite Nat.add_succ_r. apply (Hok i); [lia|done]. }
        intros Hlt. destruct (Hfail ltac:(lia)) as (i & v0 & -> & Hv0 & Hne).
        exists (S i), v0. rewrite Nat.add_succ_r. done.
      * destruct Hstop as [Hstop|Hstop]; [|congruence].
        simpl. exact Hstop.
    + destruct Hstop as [Hstop|Hstop]; [|congruence].
      simpl. exact Hstop.
Qed.

Lemma run_sequential_all_zero (L : Lib) (oracle : nat -> Oracle) (modes : list string)
  (videos : list Video) (n : nat) :
  (∀ i v, nth_error videos i = Some v ->
     fst (pipeline L (oracle (n + i)%nat) v modes) = PRet 0) ->
  fst (run_sequential L oracle modes n videos) = PRet None.
Proof.
  revert n. induction videos as [|v rest IH]; intros n Hall; [done|].
  simpl. pose proof (Hall 0%nat v eq_refl) as H0. rewrite Nat.add_0_r in H0.
  rewrite <- (fst_item_run L oracle modes n v) in H0.
  destruct (item_run L oracle modes n v) as [r tr]. simpl in H0. subst r. simpl.
  specialize (IH (S n)).
  destruct (run_sequential L oracle modes (S n) rest) as [r' tr'] eqn:E. simpl.
  apply IH. intros i v0 Hv0. replace (S n + i)%nat with (n + S i)%nat by lia.
  by apply (Hall (S i)).
Qed.


(** C6. When the prompt is shown (the item list was built and confirm is
    off) and the operator declines it (a reply that does not start with
    "y" once stripped and lower-cased, or Ctrl-C), the function returns 2
    with an empty trace: no pipeline is called and no text file is
    written; the process exits 2. *)
Theorem decline_returns_two (L : Lib) (a : Args) (w : World)
  (videos : list Video) (problems : list Problem) :
  prepare L (yamls a) = PRet (videos, problems) ->
  confirm a = false ->
  (answer w = CtrlC ∨
   ∃ s, answer w = Typed s ∧ starts_with_y (lower (strip s)) = false) ->
  trim_tag_convert_marketing_yt L a w = (PRet (Some 2), []) ∧ main L a w = 2.
Proof.
  intros Hprep Hconf Hans.
  assert (Hrun : trim_tag_convert_marketing_yt L a w = (PRet (Some 2), [])).
  { unfold trim_tag_convert_marketing_yt. rewrite Hprep. unfold gate.
    rewrite Hconf, andb_false_r.
    destruct Hans as [-> | (s & -> & Hs)]; [done|]. by rewrite Hs. }
  split; [done|]. unfold main. by rewrite Hrun.
Qed.

Lemma decline_returns_two_witness :
  trim_tag_convert_marketing_yt demo_lib (demo_args false false [perf_out "a"])
    (mk_world (Typed " No") (fun _ => ok_oracle) ([0%nat]))
    = (PRet (Some 2), []).
Proof.
  refine (proj1 (decline_returns_two demo_lib (demo_args false false [perf_out "a"])
    (mk_world (Typed " No") (fun _ => ok_oracle) ([0%nat]))
    [set_track_num (mkVideo "in.mp4" "a" "v.mp4" "a.mp3" None None "band" None) (Some 1)]
    [] _ _ _)).
  - vm_compute. reflexivity.
  - reflexivity.
  - right. exists " No"%string. split; reflexivity.
Defined.

(** C7. Sequential mode calls the items one at a time in list order: the
    trace is that of items [0 .. m-1] for some [m], every item before the
    last one called returned 0, and the loop stopped before the end only
    right after an item that did not return 0 (a non-zero exit code or
    an exception), so no later item is started. *)
Theorem sequential_fail_fast (L : Lib) (oracle : nat -> Oracle) (modes : list string)
  (videos : list Video) :
  ∃ m, (m <= length videos)%nat ∧
    snd (run_sequential L oracle modes 0 videos) =
      flat_map (fun i => match nth_error videos i with
                         | Some v => snd (item_run L oracle modes i v)
                         | None => []
                         end) (seq 0 m) ∧
    (∀ i v, (S i < m)%nat -> nth_error videos i = Some v ->
       fst (item_run L oracle modes i v) = PRet 0) ∧
    ((m < length videos)%nat -> ∃ i v, m = S i ∧ nth_error videos i = Some v ∧
       fst (item_run L oracle modes i v) ≠ PRet 0).
Proof. exact (run_sequential_prefix L oracle modes videos 0). Qed.




(** C5, as stated, at a concrete input: with confirm on, the first
    performance fails to build and the second builds, yet the run raises
    RuntimeError and calls no pipeline. *)
Lemma construction_failure_halts_cex :
  match prepare demo_lib (yamls (demo_args true false [perf_bad; perf_trimmed "b"])) with
  | PRet (videos, problems) => length videos = 1%nat ∧ problems = [PerfIdx 0 (OtherExn "bad performance")]
  | PRaise _ => False
  end ∧
  trim_tag_convert_marketing_yt demo_lib (demo_args true false [perf_bad; perf_trimmed "b"])
    (demo_world 0 0) =
  (PRaise (RuntimeError "problems were detected! you dont want to confirm this!"), []).
Proof. vm_compute. split; [split|]; reflexivity. Qed.

(** C5 (amended).  A performance whose construction raises an
    [Exception] (anything but [KeyboardInterrupt]) is recorded as the
    problem [performance idx p] and the loop goes on: every later
    performance is built, and the work list is the successfully built
    items in order, its problems starting with the construction ones.
    Whether the items are processed depends on the gate: with confirm on,
    any problem raises RuntimeError before any pipeline is called; with
    confirm off, a pipeline is called only if the reply starts with "y"
    once stripped and lower-cased, and then the thread pool runs every
    built item and sequential mode starts with the first one. *)
Theorem construction_failure_nonfatal (L : Lib) :
  (∀ dv perfs,
     (∀ perf e, In perf perfs -> from_other L dv perf = PRaise e -> e ≠ KeyboardInterrupt) ->
     ∃ ps, construct L dv 0 perfs = PRet (omap (built L dv) perfs, ps) ∧
       ∀ p perf e, perfs !! p = Some perf -> from_other L dv perf = PRaise e ->
         In (PerfIdx p e) ps) ∧
  (∀ yms videos problems, prepare L yms = PRet (videos, problems) ->
     ∃ mans dv ps, load_manifests L yms = PRet mans ∧
       make_video L (defaults (merge_manifests mans)) = PRet dv ∧
       construct L dv 0 (performances (merge_manifests mans)) =
         PRet (omap (built L dv) (performances (merge_manifests mans)), ps) ∧
       videos = number_tracks 0 (omap (built L dv) (performances (merge_manifests mans))) ∧
       ∃ more, problems = ps ++ more) ∧
  (∀ a w videos problems, prepare L (yamls a) = PRet (videos, problems) ->
     confirm a = true -> problems ≠ [] ->
     trim_tag_convert_marketing_yt L a w =
       (PRaise (RuntimeError "problems were detected! you dont want to confirm this!"), [])) ∧
  (∀ a w i, confirm a = false ->
     In (Call i) (snd (trim_tag_convert_marketing_yt L a w)) ->
     ∃ s, answer w = Typed s ∧ starts_with_y (lower (strip s)) = true) ∧
  (∀ a w videos problems s, prepare L (yamls a) = PRet (videos, problems) ->
     confirm a = false -> answer w = Typed s -> starts_with_y (lower (strip s)) = true ->
     sequential a = false -> Permutation (order w) (seq 0 (length videos)) ->
     ∀ i, (i < length videos)%nat ->
       In (Call i) (snd (trim_tag_convert_marketing_yt L a w))) ∧
  (∀ a w videos problems s, prepare L (yamls a) = PRet (videos, problems) ->
     confirm a = false -> answer w = Typed s -> starts_with_y (lower (strip s)) = true ->
     sequential a = true -> videos ≠ [] ->
     In (Call 0) (snd (trim_tag_convert_marketing_yt L a w))).
Proof.
  split; [|split; [|split; [|split; [|split]]]].
  - intros dv perfs Hki.
    destruct (construct_total L dv 0 perfs) as (vs & ps & Hc).
    { intros perf e Hin He. destruct e; try done. by destruct (Hki perf _ Hin He). }
    destruct (construct_ok L dv 0 perfs vs ps Hc) as (-> & Hin & _).
    exists ps. split; [done|]. exact Hin.
  - intros yms videos problems Hprep. unfold prepare in Hprep.
    destruct (load_manifests L yms) as [mans|e] eqn:Hl; [|discriminate].
    destruct (make_video L (defaults (merge_manifests mans))) as [dv|e] eqn:Hd;
      [|discriminate].
    destruct (construct L dv 0 _) as [[vs ps]|e] eqn:Hc; [|discriminate].
    destruct (construct_ok L dv 0 _ vs ps Hc) as (Hvs & _ & _). subst vs.
    destruct (verbose_problems L 0 _) as [ps2|e]; [|discriminate].
    destruct (tag_problems L _) as [ps3|e]; [|discriminate].
    injection Hprep as <- <-. exists mans, dv, ps. eauto 10.
  - intros a w videos problems Hprep Hconf Hne.
    unfold trim_tag_convert_marketing_yt. rewrite Hprep. unfold gate.
    rewrite Hconf, andb_true_r.
    by rewrite bool_decide_eq_false_2 by done.
  - intros a w i Hconf Hin. unfold trim_tag_convert_marketing_yt in Hin.
    destruct (prepare L (yamls a)) as [[videos problems]|e]; [|contradiction].
    unfold gate in Hin. rewrite Hconf, andb_false_r in Hin. simpl in Hin.
    destruct (answer w) as [s| |]; [|contradiction|contradiction].
    destruct (starts_with_y (lower (strip s))) eqn:Hy; [|contradiction]. eauto.
  - intros a w videos problems s Hprep Hconf Hans Hy Hseq Hperm i Hi.
    unfold trim_tag_convert_marketing_yt. rewrite Hprep. unfold gate.
    rewrite Hconf, andb_false_r, Hans, Hy, Hseq.
    pose proof (run_parallel_runs_all L (oracle w) (effective_modes (arg_modes a))
                  videos (order w) Hperm i Hi) as Hin.
    unfold run_parallel in *. simpl in *.
    destruct (finish _ _ _ _ _ _ _) as [r' tr']. simpl.
    apply in_or_app. by left.
  - intros a w videos problems s Hprep Hconf Hans Hy Hseq Hne.
    unfold trim_tag_convert_marketing_yt. rewrite Hprep. unfold gate.
    rewrite Hconf, andb_false_r, Hans, Hy, Hseq. simpl.
    destruct videos as [|v rest]; [done|].
    pose proof (run_sequential_first_call L (oracle w) (effective_modes (arg_modes a))
                  0 v rest) as Hin.
    destruct (run_sequential L (oracle w) (effective_modes (arg_modes a)) 0 (v :: rest))
      as [r tr].
    simpl in *. destruct r as [rc|e]; [|exact Hin].
    destruct (finish _ _ _ _ _ _ _) as [r' tr']. apply in_or_app. by left.
Qed.

Lemma construction_failure_nonfatal_witness :
  (∃ ps, construct demo_lib demo_default_video 0 [perf_bad; perf_out "b"] =
           PRet (omap (built demo_lib demo_default_video) [perf_bad; perf_out "b"], ps) ∧
         In (PerfIdx 0 (OtherExn "bad performance")) ps) ∧
  (∃ mans, load_manifests demo_lib [demo_manifest [perf_bad; perf_trimmed "b"]] = PRet mans) ∧
  trim_tag_convert_marketing_yt demo_lib (demo_args true false [perf_bad; perf_trimmed "b"])
    (demo_world 0 0) =
    (PRaise (RuntimeError "problems were detected! you dont want to confirm this!"), []) ∧
  (∃ s, answer (mk_world (Typed " Yes ") (fun _ => ok_oracle) [0%nat]) = Typed s ∧
        starts_with_y (lower (strip s)) = true) ∧
  In (Call 0)
    (snd (trim_tag_convert_marketing_yt demo_lib
            (demo_args false false [perf_bad; perf_trimmed "b"])
            (mk_world (Typed " Yes ") (fun _ => ok_oracle) [0%nat]))) ∧
  In (Call 0)
    (snd (trim_tag_convert_marketing_yt demo_lib
            (demo_args false true [perf_bad; perf_trimmed "b"])
            (mk_world (Typed (String (ascii_of_nat 28) "yes")) (fun _ => ok_oracle) []))).
Proof.
  destruct (construction_failure_nonfatal demo_lib) as (H1 & H2 & H3 & H4 & H5 & H6).
  split; [|split; [|split; [|split; [|split]]]].
  - destruct (H1 demo_default_video [perf_bad; perf_out "b"]) as (ps & Hc & Hin).
    { intros perf e [<-|[<-|[]]] He; vm_compute in He; [injection He as <-|]; discriminate. }
    exists ps. split; [exact Hc|]. exact (Hin 0%nat perf_bad _ eq_refl eq_refl).
  - destruct (H2 [demo_manifest [perf_bad; perf_trimmed "b"]] [trimmed_video "b" 1]
                [PerfIdx 0 (OtherExn "bad performance")]) as (mans & _ & _ & Hl & _).
    { vm_compute. reflexivity. }
    eauto.
  - apply (H3 _ _ [trimmed_video "b" 1] [PerfIdx 0 (OtherExn "bad performance")]).
    + vm_compute. reflexivity.
    + reflexivity.
    + discriminate.
  - apply (H4 (demo_args false false [perf_bad; perf_trimmed "b"]) _ 0%nat); [reflexivity|].
    vm_compute. left. reflexivity.
  - apply (H5 _ _ [trimmed_video "b" 1] [PerfIdx 0 (OtherExn "bad performance")] " Yes ").
    + vm_compute. reflexivity.
    + reflexivity.
    + reflexivity.
    + reflexivity.
    + reflexivity.
    + simpl. reflexivity.
    + simpl. lia.
  - apply (H6 _ _ [trimmed_video "b" 1] [PerfIdx 0 (OtherExn "bad performance")]
             (String (ascii_of_nat 28) "yes")).
    + vm_compute. reflexivity.
    + reflexivity.
    + reflexivity.
    + vm_compute. reflexivity.
    + reflexivity.
    + discriminate.
Defined.

(** C2 (code bug).  In the thread pool each completed result overwrites
    [return_code]: item 0's pipeline returns 1, item 1's returns 0 and
    completes last, and the aggregated code is 0, not the failure. *)
Theorem pool_masks_failure :
  fst (pipeline demo_lib (trim_fails 1) (trimmed_video "a" 1) MODES) = PRet 1 ∧
  fst (pipeline demo_lib (trim_fails 0) (trimmed_video "b" 2) MODES) = PRet 0 ∧
  fst (run_parallel demo_lib (oracle (demo_world 1 0)) MODES
         [trimmed_video "a" 1; trimmed_video "b" 2] [0; 1]%nat) = PRet (Some 0).
Proof. vm_compute. split; [|split]; reflexivity. Qed.

(** C3 (code bug).  The same overwrite at the level of the process: with
    item 0 failing with 1 and completing first, the run writes the text
    files and exits 0; with item 1 failing with 3 afterwards it exits 3,
    the last failure rather than the first.  Declining the prompt exits 2
    (see C6). *)
Theorem exit_code_masks_failure :
  main demo_lib (demo_args false false [perf_trimmed "a"; perf_trimmed "b"])
    (demo_world 1 0) = 0 ∧
  In (WriteMarketing "/home/marketing.txt")
    (snd (trim_tag_convert_marketing_yt demo_lib
            (demo_args false false [perf_trimmed "a"; perf_trimmed "b"])
            (demo_world 1 0))) ∧
  main demo_lib (demo_args false false [perf_trimmed "a"; perf_trimmed "b"])
    (demo_world 1 3) = 3.
Proof.
  split; [|split].
  - vm_compute. reflexivity.
  - vm_compute. repeat (first [left; reflexivity | right]).
  - vm_compute. reflexivity.
Qed.

(* ------------------------------------------------------------------ *)
(** ** Further properties of the script *)

Lemma load_manifest_shape (L : Lib) (m m' : RawManifest) :
  load_manifest L m = PRet m' ->
  raw_path m' = raw_path m ∧ raw_performances m' = raw_performances m ∧
  ∃ d, raw_defaults m = Some d ∧ raw_defaults m' = Some
    (<["manifest_filename":=VStr (strip_ext L (basename L (abspath L (raw_path m))))]>
     (<["manifest_dirpath":=VStr (dirname L (abspath L (raw_path m)))]>
      (<["manifest_basename":=VStr (basename L (abspath L (raw_path m)))]>
       (<["manifest_filepath":=VStr (abspath L (raw_path m))]> d)))).
Proof.
  unfold load_manifest. destruct (raw_defaults m) as [d|]; [|discriminate].
  intros H. injection H as <-. simpl. eauto.
Qed.

(** X1. Loading one manifest: without a [defaults] key it raises
    [KeyError('defaults')]; otherwise its defaults gain the four
    [manifest_*] keys computed from the absolute path, every other key
    keeps its value, and the performances are untouched. *)
Theorem load_manifest_spec (L : Lib) (m : RawManifest) :
  (raw_defaults m = None -> load_manifest L m = PRaise (KeyError "defaults")) ∧
  (∀ d, raw_defaults m = Some d ->
     ∃ d', load_manifest L m =
             PRet {| raw_path := raw_path m; raw_defaults := Some d';
                     raw_performances := raw_performances m |} ∧
       d' !! "manifest_filepath" = Some (VStr (abspath L (raw_path m))) ∧
       d' !! "manifest_basename" = Some (VStr (basename L (abspath L (raw_path m)))) ∧
       d' !! "manifest_dirpath" = Some (VStr (dirname L (abspath L (raw_path m)))) ∧
       d' !! "manifest_filename" =
         Some (VStr (strip_ext L (basename L (abspath L (raw_path m))))) ∧
       (∀ k, k ∉ ["manifest_filepath"; "manifest_basename"; "manifest_dirpath";
                  "manifest_filename"] -> d' !! k = d !! k)).
Proof.
  split.
  - intros H. unfold load_manifest. by rewrite H.
  - intros d H. unfold load_manifest. rewrite H. eexists. split; [reflexivity|].
    repeat split.
    + rewrite !lookup_insert_ne by done. by rewrite lookup_insert_eq.
    + rewrite !lookup_insert_ne by done. by rewrite lookup_insert_eq.
    + rewrite !lookup_insert_ne by done. by rewrite lookup_insert_eq.
    + by rewrite lookup_insert_eq.
    + intros k Hk. rewrite !lookup_insert_ne; [done|set_solver..].
Qed.

Lemma load_manifest_spec_witness :
  load_manifest demo_lib (demo_manifest [])
    = PRet {| raw_path := "perfs.yaml";
              raw_defaults := Some (<["manifest_filename":=VStr "perfs.yaml"]>
                                    (<["manifest_dirpath":=VStr ""]>
                                     (<["manifest_basename":=VStr "perfs.yaml"]>
                                      (<["manifest_filepath":=VStr "perfs.yaml"]> ∅))));
              raw_performances := Some [] |}.
Proof.
  destruct (proj2 (load_manifest_spec demo_lib (demo_manifest [])) ∅ eq_refl)
    as (d' & Hl & _).
  rewrite Hl. unfold load_manifest in Hl. simpl in Hl. injection Hl as <-. reflexivity.
Defined.

(** X2. Loading a list of manifests raises exactly when one of them has no
    [defaults] key, and then with [KeyError('defaults')]; on success the
    loaded manifests keep the files' order and performances. *)
Theorem load_manifests_spec (L : Lib) (yms : list RawManifest) :
  ((∃ e, load_manifests L yms = PRaise e) <-> ∃ m, In m yms ∧ raw_defaults m = None) ∧
  (∀ e, load_manifests L yms = PRaise e -> e = KeyError "defaults") ∧
  (∀ mans, load_manifests L yms = PRet mans ->
     map raw_path mans = map raw_path yms ∧
     map raw_performances mans = map raw_performances yms).
Proof.
  induction yms as [|m rest [IHiff [IHe IHok]]].
  - simpl. split; [|split].
    + split; [intros [e He]; discriminate|intros (m & [] & _)].
    + intros e He; discriminate.
    + intros mans H. injection H as <-. done.
  - simpl. destruct (load_manifest L m) as [m'|e] eqn:Hm.
    + destruct (load_manifest_shape L m m' Hm) as (Hp & Hperf & d & Hd & _).
      destruct (load_manifests L rest) as [rest'|e] eqn:Hr.
      * split; [|split].
        -- split; [intros [e He]; discriminate|].
           intros (x & [<-|Hx] & Hx'); [congruence|].
           destruct (proj2 IHiff (ex_intro _ x (conj Hx Hx'))). discriminate.
        -- intros e He; discriminate.
        -- intros mans H. injection H as <-. simpl.
           destruct (IHok rest' eq_refl) as [H1 H2]. by rewrite Hp, Hperf, H1, H2.
      * split; [|split].
        -- split; [intros _|intros _; eauto].
           destruct (proj1 IHiff (ex_intro _ e eq_refl)) as (x & Hx & Hx').
           exists x. auto.
        -- intros e' He'. injection He' as <-. by apply IHe.
        -- intros mans H; discriminate.
    + unfold load_manifest in Hm.
      destruct (raw_defaults m) eqn:Hd; [discriminate|]. injection Hm as <-.
      split; [|split].
      * split; [intros _; exists m; auto|intros _; eauto].
      * intros e' He'. by injection He' as <-.
      * intros mans H; discriminate.
Qed.

Lemma last_binding_last (k : string) (ds : list dict) (d : dict) (v : Value) :
  d !! k = Some v -> last_binding k (ds ++ [d]) = Some v.
Proof.
  intros Hd. induction ds as [|d0 rest IH]; simpl.
  - by rewrite Hd.
  - by rewrite IH.
Qed.

(** X3. After loading and merging, the defaults' [manifest_filepath]
    (and the other [manifest_*] keys) are those of the last manifest on
    the command line, whatever the earlier ones or the files say. *)
Theorem merged_manifest_path (L : Lib) (yms : list RawManifest) (mans : list RawManifest)
  (lastm : RawManifest) :
  load_manifests L yms = PRet mans -> last yms = Some lastm ->
  defaults (merge_manifests mans) !! "manifest_filepath" =
    Some (VStr (abspath L (raw_path lastm))) ∧
  defaults (merge_manifests mans) !! "manifest_filename" =
    Some (VStr (strip_ext L (basename L (abspath L (raw_path lastm))))).
Proof.
  intros Hload Hlast.
  destruct (last_Some yms lastm) as [Hl _]. destruct (Hl Hlast) as [front ->].
  assert (∃ mfront mlast, mans = mfront ++ [mlast] ∧ load_manifest L lastm = PRet mlast)
    as (mfront & mlast & -> & Hml).
  { clear Hl Hlast. revert mans Hload. induction front as [|m rest IH]; intros mans Hload.
    - simpl in Hload. destruct (load_manifest L lastm) as [ml|e]; [|discriminate].
      injection Hload as <-. exists [], ml. done.
    - simpl in Hload. destruct (load_manifest L m) as [m'|e]; [|discriminate].
      destruct (load_manifests L (rest ++ [lastm])) as [r|e]; [|discriminate].
      injection Hload as <-. destruct (IH r eq_refl) as (mf & ml & -> & H).
      exists (m' :: mf), ml. done. }
  destruct (load_manifest_shape L lastm mlast Hml) as (_ & _ & d & Hd & Hd').
  unfold merge_manifests. rewrite !merge_fold_defaults, map_app. simpl.
  rewrite Hd'. simpl. split; (erewrite last_binding_last; [done|]).
  - rewrite !lookup_insert_ne by done. by rewrite lookup_insert_eq.
  - by rewrite lookup_insert_eq.
Qed.

(** Two manifests; the first one sets its own [manifest_filepath]. *)
Definition two_manifests : list RawManifest :=
  [{| raw_path := "a.yaml"; raw_defaults := Some {[ "manifest_filepath" := VStr "x" ]};
      raw_performances := None |};
   {| raw_path := "b.yaml"; raw_defaults := Some ∅; raw_performances := None |}].

Lemma merged_manifest_path_witness :
  match load_manifests demo_lib two_manifests with
  | PRet mans => defaults (merge_manifests mans) !! "manifest_filepath"
  | PRaise _ => None
  end = Some (VStr "b.yaml").
Proof.
  destruct (load_manifests demo_lib two_manifests) as [mans|e] eqn:H;
    [|vm_compute in H; discriminate].
  exact (proj1 (merged_manifest_path demo_lib two_manifests mans
    {| raw_path := "b.yaml"; raw_defaults := Some ∅; raw_performances := None |}
    H eq_refl)).
Defined.

(** A manifest file without a [defaults] key. *)
Definition no_defaults_manifest : RawManifest :=
  {| raw_path := "bare.yaml"; raw_defaults := None; raw_performances := Some [] |}.

Lemma load_manifests_spec_witness :
  ∃ e, load_manifests demo_lib [demo_manifest []; no_defaults_manifest] = PRaise e ∧
       e = KeyError "defaults".
Proof.
  destruct (load_manifests_spec demo_lib [demo_manifest []; no_defaults_manifest])
    as [[_ H1] [H2 _]].
  destruct H1 as [e He].
  - exists no_defaults_manifest. split; [right; left; reflexivity|reflexivity].
  - exists e. split; [exact He|exact (H2 e He)].
Defined.

Lemma number_tracks_all_set (n : nat) (vs : list Video) :
  Forall (fun v => track_num v ≠ None) (number_tracks n vs).
Proof.
  revert n. induction vs as [|v rest IH]; intros n; simpl; constructor; auto.
  destruct (track_num v) eqn:Ht; simpl; [by rewrite Ht|done].
Qed.

(** X4. Every work item [prepare] hands to the batch has a track number:
    the ones a manifest set are kept, the others are numbered by position
    (numbers may then repeat; the code does not avoid set ones). *)
Theorem prepared_items_have_tracks (L : Lib) (yms : list RawManifest)
  (videos : list Video) (problems : list Problem) :
  prepare L yms = PRet (videos, problems) ->
  Forall (fun v => track_num v ≠ None) videos.
Proof.
  unfold prepare. destruct (load_manifests L yms) as [mans|e]; [|discriminate].
  destruct (make_video L _) as [dv|e]; [|discriminate].
  destruct (construct L dv 0 _) as [[vs ps]|e]; [|discriminate].
  destruct (verbose_problems L 0 _) as [ps2|e]; [|discriminate].
  destruct (tag_problems L _) as [ps3|e]; [|discriminate].
  intros H. injection H as <- _. apply number_tracks_all_set.
Qed.

Lemma prepared_items_have_tracks_witness :
  Forall (fun v => track_num v ≠ None)
    [set_track_num (mkVideo "in.mp4" "a" "v.mp4" "a.mp3" None None "band" None) (Some 1)].
Proof.
  apply (prepared_items_have_tracks demo_lib [demo_manifest [perf_out "a"]] _ []).
  vm_compute. reflexivity.
Defined.

(** X5. With [--confirm] and no problem found, the operator is never
    asked: the run does not depend on the answer it would read. *)
Theorem confirm_skips_prompt (L : Lib) (a : Args) (w : World) (ans : Answer)
  (videos : list Video) :
  prepare L (yamls a) = PRet (videos, []) -> confirm a = true ->
  trim_tag_convert_marketing_yt L a w =
  trim_tag_convert_marketing_yt L a
    {| answer := ans; oracle := oracle w; order := order w; isdir := isdir w;
       makedirs_exn := makedirs_exn w; open_exn := open_exn w; write_exn := write_exn w |}.
Proof.
  intros Hprep Hconf. unfold trim_tag_convert_marketing_yt.
  rewrite Hprep. unfold gate. rewrite Hconf, bool_decide_eq_true_2 by done. simpl.
  destruct (if sequential a then _ else _) as [[rc|e] tr]; [|done].
  by rewrite (finish_fs L w {| answer := ans; oracle := oracle w; order := order w;
    isdir := isdir w; makedirs_exn := makedirs_exn w; open_exn := open_exn w;
    write_exn := write_exn w |}).
Qed.

Lemma confirm_skips_prompt_witness :
  trim_tag_convert_marketing_yt demo_lib (demo_args true false [perf_out "a"])
    (mk_world (Typed "no") (fun _ => ok_oracle) [0%nat]) =
  trim_tag_convert_marketing_yt demo_lib (demo_args true false [perf_out "a"])
    (mk_world CtrlC (fun _ => ok_oracle) [0%nat]).
Proof.
  apply (confirm_skips_prompt demo_lib (demo_args true false [perf_out "a"])
    (mk_world (Typed "no") (fun _ => ok_oracle) [0%nat]) CtrlC
    [set_track_num (mkVideo "in.mp4" "a" "v.mp4" "a.mp3" None None "band" None) (Some 1)]);
    [vm_compute; reflexivity|reflexivity].
Defined.

(** The first character of a reply that is not whitespace. *)
Fixpoint first_non_space (s : string) : option ascii :=
  match s with
  | EmptyString => None
  | String c rest => if is_space c then first_non_space rest else Some c
  end.

Lemma lstrip_first (s : string) :
  match lstrip s with
  | EmptyString => first_non_space s = None
  | String c _ => first_non_space s = Some c ∧ is_space c = false
  end.
Proof.
  induction s as [|c rest IH]; simpl; [done|].
  destruct (is_space c) eqn:Hc; [exact IH|]. simpl. done.
Qed.

Lemma lower_char_y (c : ascii) :
  Ascii.eqb (lower_char c) "y"%char = (Ascii.eqb c "y"%char || Ascii.eqb c "Y"%char).
Proof. destruct c as [[|] [|] [|] [|] [|] [|] [|] [|]]; reflexivity. Qed.

(** X6. The confirmation reply is accepted exactly when its first
    non-whitespace character is [y] or [Y] ([" Yes"], ["yep"], ["Y"]);
    an empty or blank reply declines. *)
Theorem reply_accepted_iff (s : string) :
  starts_with_y (lower (strip s)) = true <->
  first_non_space s = Some "y"%char ∨ first_non_space s = Some "Y"%char.
Proof.
  pose proof (lstrip_first s) as H. unfold strip.
  destruct (lstrip s) as [|c r] eqn:Hl.
  - rewrite H. simpl. split; [discriminate|intros [?|?]; discriminate].
  - destruct H as [-> Hc]. simpl. rewrite Hc. simpl.
    rewrite lower_char_y. rewrite orb_true_iff, !Ascii.eqb_eq.
    split; [intros [H|H]; [left|right]; congruence|intros [H|H]; injection H as ->; auto].
Qed.

Lemma reply_accepted_iff_witness :
  starts_with_y (lower (strip "  Yes")) = true ∧ first_non_space "  Yes" = Some "Y"%char.
Proof.
  split; [apply (proj2 (reply_accepted_iff "  Yes")); right|]; reflexivity.
Defined.

(** X7. An item with neither a start nor a stop is never passed to the
    trim subprocess: the trim block copies the source file instead. *)
Theorem untrimmed_item_copied (L : Lib) (o : Oracle) (v : Video) (modes : list string) :
  truthy (start v) = false -> truthy (stop v) = false ->
  (∀ src dst, ~ In (RunTrim src dst) (snd (pipeline L o v modes))) ∧
  (mem "trim" (effective_modes modes) = true ->
   head (snd (pipeline L o v modes)) =
     Some (CopySource (filepath v)
             (abspath L (path_join L (output_dirpath v) (video_filename v))))).
Proof.
  intros Hs Ht. split.
  - intros src dst Hin. pipeline_paths o modes; rewrite ?Hs, ?Ht in *; trace_cases;
      try discriminate; try contradiction; try done; congruence.
  - intros Htrim. unfold pipeline.
    set (ms := effective_modes modes) in *.
    match goal with |- context [then_stage ?f ?k] =>
      replace f with (Next (with_video_filepath (mkLocals 0 None None None)
                       (abspath L (path_join L (output_dirpath v) (video_filename v)))),
                      [CopySource (filepath v)
                         (abspath L (path_join L (output_dirpath v) (video_filename v)))])
        by (unfold when_mode, trim_block; by rewrite Htrim, Hs, Ht);
      destruct (then_stage_prefix (Next (with_video_filepath (mkLocals 0 None None None)
                       (abspath L (path_join L (output_dirpath v) (video_filename v)))))
                  [CopySource (filepath v)
                     (abspath L (path_join L (output_dirpath v) (video_filename v)))] k)
        as [rest Hr];
      destruct (then_stage _ k) as [fl trl]; simpl in Hr; subst trl;
      destruct fl; reflexivity end.
Qed.

Lemma untrimmed_item_copied_witness :
  head (snd (pipeline demo_lib ok_oracle demo_default_video MODES)) =
    Some (CopySource "in.mp4" "out/v.mp4").
Proof.
  apply (proj2 (untrimmed_item_copied demo_lib ok_oracle demo_default_video MODES
                  eq_refl eq_refl)).
  reflexivity.
Defined.

(** X8. The pipeline's returned code is always 0, the trim subprocess's
    code, the mp3 subprocess's code, or 1 (a failed gif); it never
    returns any other number. *)
Theorem pipeline_codes (L : Lib) (o : Oracle) (v : Video) (modes : list string) (z : Z) :
  fst (pipeline L o v modes) = PRet z ->
  z = 0 ∨ z = o_trim o ∨ z = o_mp3 o ∨ z = 1.
Proof.
  intros H. pipeline_paths o modes;
    repeat match goal with H : PRet _ = PRet _ |- _ => injection H as <- end;
    try discriminate; auto.
Qed.

Lemma pipeline_codes_witness :
  fst (pipeline demo_lib (trim_fails 7) (trimmed_video "a" 1) MODES) = PRet 7 ∧
  (7 = 0 ∨ 7 = o_trim (trim_fails 7) ∨ 7 = o_mp3 (trim_fails 7) ∨ 7 = 1).
Proof.
  assert (H : fst (pipeline demo_lib (trim_fails 7) (trimmed_video "a" 1) MODES) = PRet 7)
    by reflexivity.
  split; [exact H|exact (pipeline_codes _ _ _ _ _ H)].
Defined.

(** X9. Only the first three thumbnails [generate_thumbnails] returns are
    copied, each into the item's output directory. *)
Theorem thumbnails_copied (L : Lib) (o : Oracle) (v : Video) (modes : list string)
  (t d : string) :
  In (CopyThumb t d) (snd (pipeline L o v modes)) ->
  In t (firstn 3 (o_thumbs o)) ∧ d = output_dirpath v.
Proof.
  intros Hin. pipeline_paths o modes; trace_cases; try discriminate; try contradiction;
    repeat match goal with H : CopyThumb _ _ = CopyThumb _ _ |- _ => injection H as <- <- end;
    auto.
Qed.

Lemma thumbnails_copied_witness :
  In "t1" (firstn 3 (o_thumbs ok_oracle)) ∧ "out" = output_dirpath demo_default_video.
Proof.
  apply (thumbnails_copied demo_lib ok_oracle demo_default_video MODES "t1" "out").
  vm_compute. right; right; right; right; left; reflexivity.
Defined.

(** X10. With the default modes (none given, or all of them) and tools
    that all succeed, the pipeline raises nothing and returns 0, and the
    mp3 file is tagged with the item's track number. *)
Theorem default_modes_succeed (L : Lib) (o : Oracle) (v : Video) (modes : list string) :
  modes = [] ∨ modes = MODES ->
  trim_passes o v = true -> o_mp3 o = 0 -> o_tag o = None -> o_gif o = true ->
  fst (pipeline L o v modes) = PRet 0 ∧
  In (Tag (abspath L (path_join L (output_dirpath v) (audio_filename v))) (track_num v))
     (snd (pipeline L o v modes)).
Proof.
  intros Hm Hpass Hmp3 Htag Hgif.
  assert (Hms : effective_modes modes = MODES) by (by destruct Hm as [->| ->]).
  unfold pipeline. rewrite Hms. unfold when_mode. simpl.
  unfold trim_block, mp3_block, tag_block, thumb_block, gif_block.
  unfold trim_passes in Hpass.
  destruct (negb _) eqn:Hb; simpl in *; [|rewrite Hpass; simpl];
    rewrite Hmp3, Htag, Hgif; simpl; split; auto;
    right; left; reflexivity.
Qed.

Lemma default_modes_succeed_witness :
  fst (pipeline demo_lib ok_oracle (trimmed_video "a" 1) []) = PRet 0.
Proof.
  apply (proj1 (default_modes_succeed demo_lib ok_oracle (trimmed_video "a" 1) []
    (or_introl eq_refl) eq_refl eq_refl eq_refl eq_refl)).
Defined.

Lemma as_completed_last (L : Lib) (oracle : nat -> Oracle) (modes : list string)
  (videos : list Video) (order : list nat) (i : nat) (v : Video) (z : Z) :
  Forall (fun j => ∃ w zj, nth_error videos j = Some w ∧
                           fst (pipeline L (oracle j) w modes) = PRet zj) order ->
  last order = Some i -> nth_error videos i = Some v ->
  fst (pipeline L (oracle i) v modes) = PRet z ->
  ∀ rc, as_completed_loop L oracle modes videos order rc = Some z.
Proof.
  intros Hall Hlast Hv Hz. induction Hall as [|j rest (w & zj & Hw & Hzj) Hrest IH];
    [discriminate|].
  intros rc. simpl. rewrite Hw, fst_item_run, Hzj.
  destruct rest as [|k rest'].
  - simpl in Hlast. injection Hlast as ->. rewrite Hv in Hw. injection Hw as ->.
    rewrite Hz in Hzj. injection Hzj as ->. done.
  - apply IH. done.
Qed.

(** X11. In the thread pool, when no pipeline raises, the aggregated
    return code is the code of the item that completed last, whatever the
    others returned. *)
Theorem pool_code_is_last (L : Lib) (oracle : nat -> Oracle) (modes : list string)
  (videos : list Video) (order : list nat) (i : nat) (v : Video) (z : Z) :
  Forall (fun j => ∃ w zj, nth_error videos j = Some w ∧
                           fst (pipeline L (oracle j) w modes) = PRet zj) order ->
  last order = Some i -> nth_error videos i = Some v ->
  fst (pipeline L (oracle i) v modes) = PRet z ->
  fst (run_parallel L oracle modes videos order) = PRet (Some z).
Proof.
  intros Hall Hlast Hv Hz. unfold run_parallel. simpl.
  by rewrite (as_completed_last L oracle modes videos order i v z Hall Hlast Hv Hz).
Qed.

Lemma pool_code_is_last_witness :
  fst (run_parallel demo_lib (fun i => match i with 0%nat => trim_fails 5 | _ => ok_oracle end)
         MODES [trimmed_video "a" 1; trimmed_video "b" 2] [1; 0]%nat) = PRet (Some 5).
Proof.
  apply (pool_code_is_last demo_lib _ MODES _ _ 0 (trimmed_video "a" 1)).
  - repeat constructor; eexists _, _; split; reflexivity.
  - reflexivity.
  - reflexivity.
  - reflexivity.
Defined.

Lemma as_completed_raise (L : Lib) (oracle : nat -> Oracle) (modes : list string)
  (videos : list Video) (order : list nat) (i : nat) (v : Video) (e : exn) :
  In i order -> nth_error videos i = Some v ->
  fst (pipeline L (oracle i) v modes) = PRaise e ->
  ∀ rc, as_completed_loop L oracle modes videos order rc = Some 1.
Proof.
  intros Hin Hv He. induction order as [|j rest IH]; [done|].
  intros rc. simpl. destruct Hin as [->|Hin].
  - by rewrite Hv, fst_item_run, He.
  - destruct (nth_error videos j) as [w|]; [|by apply IH].
    destruct (fst (item_run L oracle modes j w)); [by apply IH|done].
Qed.

(** X12. In the thread pool, a pipeline that raises turns the aggregated
    return code into 1, whatever the other items return. *)
Theorem pool_exception_gives_one (L : Lib) (oracle : nat -> Oracle) (modes : list string)
  (videos : list Video) (order : list nat) (i : nat) (v : Video) (e : exn) :
  In i order -> nth_error videos i = Some v ->
  fst (pipeline L (oracle i) v modes) = PRaise e ->
  fst (run_parallel L oracle modes videos order) = PRet (Some 1).
Proof.
  intros Hin Hv He. unfold run_parallel. simpl.
  by rewrite (as_completed_raise L oracle modes videos order i v e Hin Hv He).
Qed.

Lemma pool_exception_gives_one_witness :
  fst (run_parallel demo_lib (fun _ => ok_oracle) ["mp3"]
         [trimmed_video "a" 1; trimmed_video "b" 2] [1; 0]%nat) = PRet (Some 1).
Proof.
  apply (pool_exception_gives_one demo_lib _ ["mp3"] _ _ 1 (trimmed_video "b" 2)
           (NameError "video_filepath")).
  - left; reflexivity.
  - reflexivity.
  - reflexivity.
Defined.

(** X13. The sequential batch's result comes from the item it stopped at:
    a returned code is that item's non-zero exit code, a raised exception
    is the one that item's pipeline raised. *)
Theorem sequential_result_source (L : Lib) (oracle : nat -> Oracle) (modes : list string)
  (videos : list Video) (n : nat) :
  (∀ z, fst (run_sequential L oracle modes n videos) = PRet (Some z) ->
     ∃ i v, nth_error videos i = Some v ∧
       fst (pipeline L (oracle (n + i)%nat) v modes) = PRet z ∧ z ≠ 0) ∧
  (∀ e, fst (run_sequential L oracle modes n videos) = PRaise e ->
     ∃ i v, nth_error videos i = Some v ∧
       fst (pipeline L (oracle (n + i)%nat) v modes) = PRaise e).
Proof.
  revert n. induction videos as [|v rest IH]; intros n.
  - split; intros ? H; discriminate.
  - simpl. pose proof (fst_item_run L oracle modes n v) as Hf.
    destruct (item_run L oracle modes n v) as [r tr]. simpl in Hf.
    destruct (IH (S n)) as [IH1 IH2].
    destruct r as [z0|e0].
    + destruct (Z.eqb_spec z0 0) as [->|Hz0].
      * destruct (run_sequential L oracle modes (S n) rest) as [r' tr'] eqn:E.
        simpl in *. split.
        -- intros z Hr. destruct (IH1 z Hr) as (i & w & Hw & Hp & Hne).
           exists (S i), w. rewrite Nat.add_succ_r. auto.
        -- intros e Hr. destruct (IH2 e Hr) as (i & w & Hw & Hp).
           exists (S i), w. rewrite Nat.add_succ_r. auto.
      * simpl. split; [|intros; discriminate].
        intros z Hr. injection Hr as <-. exists 0%nat, v.
        rewrite Nat.add_0_r. auto.
    + simpl. split; [intros; discriminate|].
      intros e He. injection He as <-. exists 0%nat, v. rewrite Nat.add_0_r. auto.
Qed.

Lemma sequential_result_source_witness :
  ∃ i v, nth_error [trimmed_video "a" 1; trimmed_video "b" 2] i = Some v ∧
    fst (pipeline demo_lib (oracle (demo_world 0 4) (0 + i)%nat) v MODES) = PRet 4 ∧ 4 ≠ 0.
Proof.
  apply (proj1 (sequential_result_source demo_lib (oracle (demo_world 0 4)) MODES
                  [trimmed_video "a" 1; trimmed_video "b" 2] 0)).
  reflexivity.
Defined.

Lemma run_sequential_item_events (L : Lib) (oracle : nat -> Oracle) (modes : list string)
  (videos : list Video) (n : nat) :
  Forall (fun e => ∃ i, e = Call i ∨ ∃ s, e = Item i s)
    (snd (run_sequential L oracle modes n videos)).
Proof.
  revert n. induction videos as [|v rest IH]; intros n; [constructor|].
  simpl. assert (Hit : Forall (fun e => ∃ i, e = Call i ∨ ∃ s, e = Item i s)
                         (snd (item_run L oracle modes n v))).
  { unfold item_run. destruct (pipeline L (oracle n) v modes) as [r tr]. simpl.
    constructor; [by exists n; left|]. apply List.Forall_forall. intros e He.
    apply in_map_iff in He as (s & <- & _). exists n. right. by exists s. }
  destruct (item_run L oracle modes n v) as [r tr]. simpl in Hit.
  destruct r as [z|e]; [|exact Hit].
  destruct (Z.eqb z 0); [|exact Hit].
  specialize (IH (S n)). destruct (run_sequential L oracle modes (S n) rest) as [r' tr'].
  apply Forall_app. auto.
Qed.

(** X14. In sequential mode, when every pipeline returns 0, [return_code]
    stays [None], so [if return_code != 0: return return_code] leaves the
    function before the text outputs: the run returns [None] and writes
    neither the marketing text nor any youtube text, whatever the modes. *)
Theorem sequential_success_writes_nothing (L : Lib) (a : Args) (w : World)
  (videos : list Video) (problems : list Problem) :
  sequential a = true ->
  prepare L (yamls a) = PRet (videos, problems) ->
  gate (confirm a) problems (answer w) = None ->
  (∀ i v, nth_error videos i = Some v ->
     fst (pipeline L (oracle w i) v (effective_modes (arg_modes a))) = PRet 0) ->
  fst (trim_tag_convert_marketing_yt L a w) = PRet None ∧
  ∀ p, ¬ In (WriteMarketing p) (snd (trim_tag_convert_marketing_yt L a w)) ∧
       ¬ In (WriteYoutube p) (snd (trim_tag_convert_marketing_yt L a w)).
Proof.
  intros Hseq Hprep Hgate Hall. unfold trim_tag_convert_marketing_yt.
  rewrite Hprep, Hgate, Hseq.
  pose proof (run_sequential_all_zero L (oracle w) (effective_modes (arg_modes a))
                videos 0 Hall) as Hr.
  pose proof (run_sequential_item_events L (oracle w) (effective_modes (arg_modes a))
                videos 0) as Hev.
  destruct (run_sequential _ _ _ 0 videos) as [r tr]. simpl in Hr, Hev. subst r.
  unfold finish. simpl. rewrite app_nil_r. split; [done|].
  intros p. rewrite List.Forall_forall in Hev.
  split; intros Hin; destruct (Hev _ Hin) as (i & [? | (s & ?)]); discriminate.
Qed.

Lemma sequential_success_writes_nothing_witness :
  fst (trim_tag_convert_marketing_yt demo_lib
         (demo_args false true [perf_trimmed "a"; perf_trimmed "b"]) (demo_world 0 0))
    = PRet None.
Proof.
  refine (proj1 (sequential_success_writes_nothing demo_lib
            (demo_args false true [perf_trimmed "a"; perf_trimmed "b"]) (demo_world 0 0)
            [trimmed_video "a" 1; trimmed_video "b" 2] [] _ _ _ _)).
  - reflexivity.
  - vm_compute. reflexivity.
  - reflexivity.
  - intros i v Hv. destruct i as [|[|i]]; simpl in Hv;
      [injection Hv as <-; reflexivity|injection Hv as <-; reflexivity|].
    destruct i; discriminate.
Defined.

(** X15. With the thread pool, when every pipeline returns 0, at least
    one result is collected, the given [marketing_filepath] lies in an
    existing named directory and every text can be built, opened and
    written, the run returns [None] after all pipeline actions and then
    writes, in this order, the marketing text at [marketing_filepath] if
    the modes include [market], and one [youtube.txt] per item, in item
    order, in that item's output directory if the modes include [yt]. *)
Theorem pool_success_writes_texts (L : Lib) (a : Args) (w : World)
  (videos : list Video) (problems : list Problem) (p : string) :
  sequential a = false ->
  prepare L (yamls a) = PRet (videos, problems) ->
  gate (confirm a) problems (answer w) = None ->
  (∀ i v, nth_error videos i = Some v ->
     fst (pipeline L (oracle w i) v (effective_modes (arg_modes a))) = PRet 0) ->
  order w ≠ [] -> Forall (fun j => (j < length videos)%nat) (order w) ->
  marketing_filepath a = Some p ->
  dirname L p ≠ "" -> isdir w (dirname L p) = true ->
  (∀ q, open_exn w q = None) -> (∀ q, write_exn w q = None) ->
  (∀ v, socials_exn L v = None) -> (∀ v, youtube_exn L v = None) ->
  fst (trim_tag_convert_marketing_yt L a w) = PRet None ∧
  snd (trim_tag_convert_marketing_yt L a w) =
    snd (run_parallel L (oracle w) (effective_modes (arg_modes a)) videos (order w)) ++
    (if mem "market" (effective_modes (arg_modes a)) then [WriteMarketing p] else []) ++
    (if mem "yt" (effective_modes (arg_modes a)) then
       map (fun v => WriteYoutube (path_join L (output_dirpath v) "youtube.txt")) videos
     else []).
Proof.
  intros Hseq Hprep Hgate Hall Hne Hrange Hmf Hdn Hdir Ho Hw Hs Hy.
  set (modes := effective_modes (arg_modes a)) in *.
  assert (Hloop : as_completed_loop L (oracle w) modes videos (order w) None = Some 0).
  { destruct (last (order w)) as [i|] eqn:Hl; [|by apply last_None in Hl].
    assert (Hi : (i < length videos)%nat).
    { rewrite List.Forall_forall in Hrange. apply Hrange.
      apply list_elem_of_In. by apply last_Some_elem_of. }
    destruct (nth_error videos i) as [v|] eqn:Hv;
      [|apply nth_error_None in Hv; lia].
    apply (as_completed_last L (oracle w) modes videos (order w) i v 0); auto.
    apply (Forall_impl _ _ _ Hrange). intros j Hj.
    destruct (nth_error videos j) as [u|] eqn:Hu; [|apply nth_error_None in Hu; lia].
    exists u, 0. auto. }
  assert (Hwm : write_marketing L w videos p = (PRet tt, [WriteMarketing p])).
  { destruct (write_marketing_ok L w videos p Hdn (or_introl Hdir) Hs (Ho p) (Hw p))
      as [H1 H2].
    specialize (H2 Hdir). destruct (write_marketing L w videos p); simpl in *.
    by subst. }
  unfold trim_tag_convert_marketing_yt. fold modes.
  rewrite Hprep, Hgate, Hseq. unfold run_parallel at 1. rewrite Hloop.
  unfold finish. rewrite bool_decide_eq_true_2 by done. simpl. rewrite Hmf.
  rewrite (write_youtube_ok L w videos Ho Hw Hy).
  destruct (mem "market" modes), (mem "yt" modes); rewrite ?Hwm; simpl;
    (split; [done|]); unfold run_parallel; rewrite Hloop, bool_decide_eq_true_2 by done;
    simpl; by rewrite ?app_nil_r, <-?app_assoc.
Qed.

Lemma pool_success_writes_texts_witness :
  In (WriteMarketing "/srv/out/marketing.txt")
    (snd (trim_tag_convert_marketing_yt demo_lib
            {| yamls := [demo_manifest [perf_trimmed "a"; perf_trimmed "b"]];
               confirm := false; sequential := false;
               marketing_filepath := Some "/srv/out/marketing.txt";
               cwd := "/home"; arg_modes := [] |}
            (demo_world 0 0))).
Proof.
  rewrite (proj2 (pool_success_writes_texts demo_lib
            {| yamls := [demo_manifest [perf_trimmed "a"; perf_trimmed "b"]];
               confirm := false; sequential := false;
               marketing_filepath := Some "/srv/out/marketing.txt";
               cwd := "/home"; arg_modes := [] |}
            (demo_world 0 0)
            [trimmed_video "a" 1; trimmed_video "b" 2] [] "/srv/out/marketing.txt"
            eq_refl ltac:(vm_compute; reflexivity) eq_refl
            ltac:(intros [|[|[|i]]] v Hv; simpl in Hv;
                  [injection Hv as <-; reflexivity|injection Hv as <-; reflexivity
                  |discriminate|discriminate])
            ltac:(discriminate) ltac:(repeat constructor) eq_refl
            ltac:(vm_compute; discriminate) ltac:(vm_compute; reflexivity)
            ltac:(reflexivity) ltac:(reflexivity) ltac:(reflexivity) ltac:(reflexivity))).
  apply in_or_app. right. left. reflexivity.
Defined.

Lemma as_completed_empty (L : Lib) (oracle : nat -> Oracle) (modes : list string)
  (order : list nat) (rc : option Z) :
  as_completed_loop L oracle modes [] order rc = rc.
Proof. induction order as [|i rest IH]; [done|]. simpl. by destruct i. Qed.

(** X16. An empty batch (the manifests list no performances) that passes
    the gate calls no pipeline and writes no text file, in sequential and
    in pool mode: [return_code] stays [None], the function returns [None]
    and the process exits 0. *)
Theorem empty_batch_noop (L : Lib) (a : Args) (w : World) (problems : list Problem) :
  prepare L (yamls a) = PRet ([], problems) ->
  gate (confirm a) problems (answer w) = None ->
  trim_tag_convert_marketing_yt L a w = (PRet None, []) ∧ main L a w = 0.
Proof.
  intros Hprep Hgate.
  assert (H : trim_tag_convert_marketing_yt L a w = (PRet None, [])).
  { unfold trim_tag_convert_marketing_yt. rewrite Hprep, Hgate.
    destruct (sequential a); [done|].
    unfold run_parallel. rewrite as_completed_empty. simpl.
    replace (flat_map _ (order w)) with (@nil bevent); [done|].
    induction (order w) as [|i rest IH]; [done|]. simpl. by destruct i. }
  split; [exact H|]. unfold main. by rewrite H.
Qed.

Lemma empty_batch_noop_witness :
  main demo_lib (demo_args false false []) (demo_world 0 0) = 0.
Proof.
  refine (proj2 (empty_batch_noop demo_lib (demo_args false false []) (demo_world 0 0) []
                   _ _)); vm_compute; reflexivity.
Defined.
